(** * find_music_files: a shallow embedding of the scanner and its reporter

    The development follows [find_music_files.py]:
    - [MUSIC_EXTENSIONS], the fixed catalog (lines 9-16);
    - [count_music_files], the scanner (lines 18-91);
    - [main], argument check, scan and the two report tables (lines 93-157).

    Conventions of the model.
    - File names and paths are byte strings ([string]); [str.lower] acts on
      the ASCII letters, the only ones that occur in the catalog.
    - Python integers that count files are [nat].
    - Wall-clock readings ([time.time()]) and the numbers derived from them
      are idealised as exact rationals ([Q]); a true division by zero raises
      [ZeroDivisionError] as in Python.  Binary rounding is not modelled.
    - A [dict] is an association list in insertion order.
    - The console and the file-system calls are recorded in a log that is
      threaded, with the clock, through a small state-and-exception monad. *)

From Stdlib Require Import List String Ascii Arith ZArith QArith Lia Lqa Bool.
From Stdlib Require Import Permutation Sorted DecimalString.

Set Warnings "-register-all".
Set Default Goal Selector "!".
Import ListNotations.

Close Scope Q_scope.
Local Open Scope string_scope.
Local Open Scope nat_scope.

(* ================================================================== *)
(** * Strings: the few [str], [os.path] and [pathlib] operations used   *)
(* ================================================================== *)

Module Str.

(** [str.lower], on ASCII letters. *)
Definition lower_char (c : ascii) : ascii :=
  let n := nat_of_ascii c in
  if (65 <=? n) && (n <=? 90) then ascii_of_nat (n + 32) else c.

Fixpoint lower (s : string) : string :=
  match s with
  | EmptyString => EmptyString
  | String c r => String (lower_char c) (lower r)
  end.

(** [str.rfind(c)]: index of the last occurrence of [c], [-1] if none. *)
Fixpoint rfind (c : ascii) (s : string) : Z :=
  match s with
  | EmptyString => (-1)%Z
  | String a r =>
      let i := rfind c r in
      if (0 <=? i)%Z then (i + 1)%Z
      else if Ascii.eqb a c then 0%Z else (-1)%Z
  end.

(** The slice [s[n:]]. *)
Fixpoint drop (n : nat) (s : string) : string :=
  match n, s with
  | O, _ => s
  | S n', String _ r => drop n' r
  | S _, EmptyString => EmptyString
  end.

(** [pathlib.PurePath.suffix] on a final path component:
    [i = name.rfind('.')]; [name[i:]] if [0 < i < len(name) - 1] else ['']. *)
Definition suffix (name : string) : string :=
  let i := rfind "." name in
  if ((0 <? i)%Z && (i <? Z.of_nat (String.length name) - 1)%Z)%bool
  then drop (Z.to_nat i) name
  else "".

(** [os.path.basename] (posixpath): [i = p.rfind('/') + 1; p[i:]]. *)
Definition basename (p : string) : string :=
  drop (Z.to_nat (rfind "/" p + 1)) p.

(** Membership in a Python [set] of strings. *)
Definition mem (x : string) (s : list string) : bool :=
  existsb (String.eqb x) s.

Definition has_char (c : ascii) (s : string) : bool := (0 <=? rfind c s)%Z.

End Str.

(* ================================================================== *)
(** * The catalog                                                       *)
(* ================================================================== *)

(** [MUSIC_EXTENSIONS], a set literal; the list keeps the order of the
    source text.  The order in which Python iterates over a set of strings
    is not fixed: where the code iterates over it the model takes the
    iteration order as a parameter. *)
Definition MUSIC_EXTENSIONS : list string :=
  [ ".mp3"; ".aac"; ".wav"; ".flac"; ".m4a";
    ".oga"; ".ape"; ".dsf"; ".dff"; ".aiff"; ".aif";
    ".ogg" ].

(** [Path(name).suffix.lower()], the extension used for classification. *)
Definition file_ext (name : string) : string := Str.lower (Str.suffix name).

(** [file_ext in MUSIC_EXTENSIONS]. *)
Definition is_music (name : string) : bool :=
  Str.mem (file_ext name) MUSIC_EXTENSIONS.

(* ================================================================== *)
(** * Dictionaries ([defaultdict(int)]) as insertion-ordered lists      *)
(* ================================================================== *)

Module Dict.

Definition t := list (string * nat).

Fixpoint get (d : t) (k : string) : option nat :=
  match d with
  | [] => None
  | (k', v) :: r => if String.eqb k k' then Some v else get r k
  end.

(** [d[k] = v]: an existing key keeps its place, a new key goes last. *)
Fixpoint set (d : t) (k : string) (v : nat) : t :=
  match d with
  | [] => [(k, v)]
  | (k', v') :: r =>
      if String.eqb k k' then (k', v) :: r else (k', v') :: set r k v
  end.

(** [d[k]] on a [defaultdict(int)]: a missing key reads as [0]. *)
Definition getitem (d : t) (k : string) : nat :=
  match get d k with Some v => v | None => 0 end.

(** [d[k] += 1]. *)
Definition incr (d : t) (k : string) : t := set d k (getitem d k + 1).

Definition keys (d : t) : list string := map fst d.
Definition values (d : t) : list nat := map snd d.
Definition items (d : t) : list (string * nat) := d.

(** [sum(d.values())]. *)
Definition total (d : t) : nat := list_sum (values d).

End Dict.

(* ================================================================== *)
(** * Sorting: [sorted] is a stable sort                                *)
(* ================================================================== *)

Section Sorting.
Context {A : Type}.
Variable before : A -> A -> bool.

(** [x] is put in front of the first element it may precede. *)
Fixpoint insert_sorted (x : A) (l : list A) : list A :=
  match l with
  | [] => [x]
  | y :: r => if before x y then x :: l else y :: insert_sorted x r
  end.

(** Insertion from the right keeps equal elements in their input order. *)
Definition sorted_with (l : list A) : list A :=
  fold_right insert_sorted [] l.
End Sorting.

(** [sorted(items, key=lambda x: x[1], reverse=True)]. *)
Definition sorted_by_count_desc (l : list (string * nat)) : list (string * nat) :=
  sorted_with (fun x y => snd y <=? snd x) l.

(** [sorted(names)], strings compared character by character. *)
Definition sorted_strings (l : list string) : list string :=
  sorted_with String.leb l.

(* ================================================================== *)
(** * The file system as the scanner sees it                            *)
(* ================================================================== *)

(** A directory entry.  [DirLink] is a symbolic link to a directory with
    the listing of its target: [DirEntry.is_dir()] follows it, [os.walk]
    reports it among the directories but does not descend into it. *)
Inductive node : Type :=
| File (name : string)
| Other (name : string)
| Dir (name : string) (children : list node)
| DirLink (name : string) (children : list node).

Definition node_name (n : node) : string :=
  match n with
  | File s | Other s | Dir s _ | DirLink s _ => s
  end.

(** [DirEntry.is_dir()] and [DirEntry.is_file()]; [Other] (a socket, a
    FIFO, a dangling link) is neither. *)
Definition is_dir (n : node) : bool :=
  match n with
  | Dir _ _ | DirLink _ _ => true
  | File _ | Other _ => false
  end.

Definition is_file (n : node) : bool :=
  match n with
  | File _ => true
  | _ => false
  end.

(** The [files] component of one [os.walk] triple: every entry of the
    directory that is not a directory. *)
Definition nondirs (cs : list node) : list string :=
  map node_name (filter (fun n => negb (is_dir n)) cs).

(** What [os.walk] yields (the [files] lists, top-down) when it recurses
    into an entry of a directory it has just listed. *)
Fixpoint walk_below (n : node) : list (list string) :=
  match n with
  | Dir _ cs => nondirs cs :: flat_map walk_below cs
  | File _ | Other _ | DirLink _ _ => []
  end.

(** [os.walk(top.path)]: the top itself is listed even through a link. *)
Definition os_walk (top : node) : list (list string) :=
  match top with
  | Dir _ cs | DirLink _ cs => nondirs cs :: flat_map walk_below cs
  | File _ | Other _ => []
  end.

(** What a path names. *)
Inductive path_target : Type :=
| Missing
| NotDir
| Unreadable
| Listing (entries : list node).

(* ================================================================== *)
(** * Console lines, events, exceptions and the monad                   *)
(* ================================================================== *)

Inductive table : Type := BySubfolder | ByExtension.

(** One constructor per [print] of the source; numbers that the source
    formats are kept as values, except the percentage column, kept as the
    text produced by [{percentage:>9.2f}%]. *)
Inductive line : Type :=
| LFound (count : nat) (name : string)                          (* l. 51 *)
| LDenied (root_path : string)                                  (* l. 54 *)
| LScanningTop (n : nat) (root_path : string)                   (* l. 57 *)
| LProgressHeader                                               (* l. 58 *)
| LRule (n : nat)                                               (* "-" * n *)
| LScanning (name : string)                                     (* l. 64 *)
| LProgress (name : string) (subdir_count : nat) (speed : Q)    (* l. 79 *)
| LSubdirRow (name : string) (subdir_count cumulative_count : nat)
             (files_per_sec : Q)                                (* l. 87 *)
| LError (folder_path : string)                                 (* l. 103 *)
| LSelected (folder_path : string)                              (* l. 106 *)
| LExtensions (exts : list string)                              (* l. 107 *)
| LTitle (t : table)                                            (* l. 116, 131 *)
| LTableHeader (t : table) (width : nat)                        (* l. 123, 139 *)
| LTableRule (width : nat)                                      (* l. 124, 140 *)
| LTableRow (t : table) (name : string) (count : nat)
            (percentage : string)                               (* l. 128, 149, 153 *)
| LTotal (total_count : nat)                                    (* l. 156 *)
| LElapsed (elapsed : Q).                                       (* l. 157 *)

Inductive event : Type :=
| Print (l : line)
| Isdir (path : string)
| Scandir (path : string)
| Walk (name : string).

Inductive exn : Type :=
| ZeroDivisionError
| PermissionError
| FileNotFoundError
| NotADirectoryError
| SystemExit (code : nat).

Inductive result (A : Type) : Type :=
| Ok (a : A)
| Raise (e : exn).
Arguments Ok {A} a.
Arguments Raise {A} e.

(** [ticks] counts the calls of [time.time()] so far; [log] holds the
    events, the most recent first. *)
Record state : Type := mkState { ticks : nat; log : list event }.

Definition init : state := mkState 0 [].

(** The console output, oldest line first. *)
Definition output (st : state) : list line :=
  flat_map (fun e => match e with Print l => [l] | _ => [] end) (rev (log st)).

Definition M (A : Type) : Type := state -> result A * state.

Definition ret {A} (a : A) : M A := fun st => (Ok a, st).

Definition bind {A B} (m : M A) (k : A -> M B) : M B :=
  fun st =>
    match m st with
    | (Ok a, st') => k a st'
    | (Raise e, st') => (Raise e, st')
    end.

Definition raise {A} (e : exn) : M A := fun st => (Raise e, st).

Definition emit (e : event) : M unit :=
  fun st => (Ok tt, mkState (ticks st) (e :: log st)).

Definition print (l : line) : M unit := emit (Print l).

(** [try: body  except E: handler], for the exceptions selected by [handles]. *)
Definition try_except {A} (body : M A) (handles : exn -> bool) (handler : M A)
  : M A :=
  fun st =>
    match body st with
    | (Raise e, st') => if handles e then handler st' else (Raise e, st')
    | r => r
    end.

Declare Scope monad_scope.
Delimit Scope monad_scope with monad.
Notation "x <- c ;; k" := (bind c (fun x => k))
  (at level 61, c at next level, right associativity) : monad_scope.
Notation "' pat <- c ;; k" := (bind c (fun x => match x with pat => k end))
  (at level 61, pat pattern, c at next level, right associativity) : monad_scope.
Notation "c ;; k" := (bind c (fun _ => k))
  (at level 61, right associativity) : monad_scope.
Local Open Scope monad_scope.

(** A [for] loop that updates its local variables [a]. *)
Fixpoint foldM {A B} (body : B -> A -> M A) (l : list B) (a : A) : M A :=
  match l with
  | [] => ret a
  | x :: r => a' <- body x a ;; foldM body r a'
  end.

(** A [for] loop run for its effects only. *)
Fixpoint forM {B} (body : B -> M unit) (l : list B) : M unit :=
  match l with
  | [] => ret tt
  | x :: r => body x ;; forM body r
  end.

Definition Q_of_nat (n : nat) : Q := inject_Z (Z.of_nat n).

(** [a / b] on numbers. *)
Definition truediv (a b : Q) : M Q :=
  if Qeq_bool b 0 then raise ZeroDivisionError else ret (a / b)%Q.

(** Truthiness of a number: [if elapsed]. *)
Definition truthy (x : Q) : bool := negb (Qeq_bool x 0).

(* ================================================================== *)
(** * Formatting the percentage column                                  *)
(* ================================================================== *)

(** Nearest integer, ties to even. *)
Definition round_half_even (q : Q) : Z :=
  let n := Qnum q in
  let d := Zpos (Qden q) in
  let fl := (n / d)%Z in
  let r := (2 * (n mod d))%Z in
  if (r <? d)%Z then fl
  else if (d <? r)%Z then (fl + 1)%Z
  else if Z.even fl then fl else (fl + 1)%Z.

Definition decimal (n : nat) : string := NilZero.string_of_uint (Nat.to_uint n).

Definition two_digits (n : nat) : string :=
  if n <? 10 then "0" ++ decimal n else decimal n.

(** [format(x, ".2f")]. *)
Definition format_2f (x : Q) : string :=
  let n := round_half_even (x * 100)%Q in
  let a := Z.to_nat (Z.abs n) in
  (if (n <? 0)%Z then "-" else "")
    ++ decimal (a / 100) ++ "." ++ two_digits (a mod 100).

Fixpoint spaces (n : nat) : string :=
  match n with
  | O => ""
  | S n' => String " " (spaces n')
  end.

(** [>w]: right-align in a field of width [w]. *)
Definition rjust (w : nat) (s : string) : string :=
  spaces (w - String.length s) ++ s.

(** [f"{percentage:>9.2f}%"]. *)
Definition format_percentage (x : Q) : string := rjust 9 (format_2f x) ++ "%".

(* ================================================================== *)
(** * The program                                                       *)
(* ================================================================== *)

Inductive flow (R A : Type) : Type :=
| Return (r : R)
| Continue (a : A).
Arguments Return {R A} r.
Arguments Continue {R A} a.

Definition handles_PermissionError (e : exn) : bool :=
  match e with
  | PermissionError => true
  | _ => false
  end.

(** The three results: Folder Count Map, Total Count, Extension Count Map. *)
Definition scan_results : Type := (Dict.t * nat * Dict.t)%type.

Section Program.

(** The environment of a run: the [n]-th reading of the wall clock, what
    each path names, and the order in which the catalog is iterated. *)
Variable clock : nat -> Q.
Variable fs : string -> path_target.
Variable set_iter : list string.

(** [time.time()]. *)
Definition time_time : M Q :=
  fun st => (Ok (clock (ticks st)), mkState (S (ticks st)) (log st)).

(** [os.path.isdir(path)]. *)
Definition isdir (path : string) : M bool :=
  emit (Isdir path) ;;
  ret match fs path with
      | Unreadable | Listing _ => true
      | Missing | NotDir => false
      end.

(** [os.scandir(path)], read to the end. *)
Definition scandir (path : string) : M (list node) :=
  emit (Scandir path) ;;
  match fs path with
  | Listing entries => ret entries
  | Unreadable => raise PermissionError
  | NotDir => raise NotADirectoryError
  | Missing => raise FileNotFoundError
  end.

(** Lines 29-31. *)
Definition initial_extension_counts : Dict.t :=
  fold_left (fun d ext => Dict.set d ext 0) set_iter [].

(** Lines 43-47: the body of the loop over the root's own entries.
    [Path(f.path)] ends in the entry's own name. *)
Definition scan_root_entry (f : node) (acc : nat * Dict.t) : nat * Dict.t :=
  let '(count, extension_counts) := acc in
  if is_file f then
    let file_ext := file_ext (node_name f) in
    if Str.mem file_ext MUSIC_EXTENSIONS
    then (count + 1, Dict.incr extension_counts file_ext)
    else acc
  else acc.

(** Lines 70-80: the body of the loop over the files of a walk. *)
Definition scan_file (name : string) (start_time : Q) (file : string)
           (acc : nat * nat * Dict.t) : M (nat * nat * Dict.t) :=
  let '(subdir_count, total_count, extension_counts) := acc in
  let file_ext := file_ext file in
  if Str.mem file_ext MUSIC_EXTENSIONS then
    let subdir_count := subdir_count + 1 in
    let total_count := total_count + 1 in
    let extension_counts := Dict.incr extension_counts file_ext in
    if subdir_count mod 100 =? 0 then
      now <- time_time ;;
      let elapsed := (now - start_time)%Q in
      speed <- truediv (Q_of_nat subdir_count) elapsed ;;
      print (LProgress name subdir_count speed) ;;
      ret (subdir_count, total_count, extension_counts)
    else ret (subdir_count, total_count, extension_counts)
  else ret acc.

(** Lines 63-89: the body of the loop over the top-level subdirectories.
    The loop variables are [music_files_count], [total_count],
    [cumulative_count] and [extension_counts]. *)
Definition scan_subdir (subdir : node)
           (acc : Dict.t * nat * nat * Dict.t)
  : M (Dict.t * nat * nat * Dict.t) :=
  let '(music_files_count, total_count, cumulative_count, extension_counts) :=
    acc in
  let name := node_name subdir in
  let subdir_count := 0 in
  print (LScanning name) ;;
  start_time <- time_time ;;
  emit (Walk name) ;;
  '(subdir_count, total_count, extension_counts) <-
    foldM (fun files acc => foldM (scan_file name start_time) files acc)
          (os_walk subdir) (subdir_count, total_count, extension_counts) ;;
  now <- time_time ;;
  let elapsed := (now - start_time)%Q in
  files_per_sec <-
    (if truthy elapsed then truediv (Q_of_nat subdir_count) elapsed
     else ret 0%Q) ;;
  let cumulative_count := cumulative_count + subdir_count in
  print (LSubdirRow name subdir_count cumulative_count files_per_sec) ;;
  let music_files_count := Dict.set music_files_count name subdir_count in
  ret (music_files_count, total_count, cumulative_count, extension_counts).

(** Lines 18-91.  The [try] block either returns (flat root) or falls
    through with [top_subdirs]; the only statement of the block that can
    raise [PermissionError] before anything is counted is the first
    [os.scandir], so the handler returns the initial values. *)
Definition count_music_files (root_path : string) : M scan_results :=
  let music_files_count : Dict.t := [] in
  let extension_counts := initial_extension_counts in
  let total_count := 0 in
  let cumulative_count := 0 in
  r <- try_except
         (entries <- scandir root_path ;;
          let top_subdirs := filter is_dir entries in
          match top_subdirs with
          | [] =>
              entries <- scandir root_path ;;
              let '(count, extension_counts) :=
                fold_left (fun acc f => scan_root_entry f acc) entries
                          (0, extension_counts) in
              let music_files_count :=
                Dict.set music_files_count (Str.basename root_path) count in
              let total_count := count in
              print (LFound count (Str.basename root_path)) ;;
              ret (Return (music_files_count, total_count, extension_counts))
          | _ :: _ => ret (Continue top_subdirs)
          end)
         handles_PermissionError
         (print (LDenied root_path) ;;
          ret (Return (music_files_count, total_count, extension_counts))) ;;
  match r with
  | Return results => ret results
  | Continue top_subdirs =>
      print (LScanningTop (List.length top_subdirs) root_path) ;;
      print LProgressHeader ;;
      print (LRule 90) ;;
      '(music_files_count, total_count, cumulative_count, extension_counts) <-
        foldM scan_subdir top_subdirs
              (music_files_count, total_count, cumulative_count,
               extension_counts) ;;
      ret (music_files_count, total_count, extension_counts)
  end.

(** [(count / total_count) * 100 if total_count > 0 else 0]. *)
Definition percentage (count total_count : nat) : M Q :=
  if 0 <? total_count then
    q <- truediv (Q_of_nat count) (Q_of_nat total_count) ;;
    ret (q * 100)%Q
  else ret 0%Q.

(** [max(len(k) for k in d.keys()) if d else 0]. *)
Definition max_key_length (d : Dict.t) : nat :=
  fold_right Nat.max 0 (map String.length (Dict.keys d)).

(** Lines 126-128. *)
Definition print_table1 (folder_counts : Dict.t) (total_count : nat)
  : M unit :=
  forM (fun '(folder, count) =>
          percentage <- percentage count total_count ;;
          print (LTableRow BySubfolder folder count
                           (format_percentage percentage)))
       (sorted_by_count_desc (Dict.items folder_counts)).

(** Lines 143-153.  A comprehension over the items of a dictionary keeps
    the items that pass the test, in their order. *)
Definition print_table2 (extension_counts : Dict.t) (total_count : nat)
  : M unit :=
  let non_zero_exts : Dict.t :=
    filter (fun '(ext, count) => 0 <? count) (Dict.items extension_counts) in
  let zero_exts : Dict.t :=
    filter (fun '(ext, count) => count =? 0) (Dict.items extension_counts) in
  forM (fun '(ext, count) =>
          percentage <- percentage count total_count ;;
          print (LTableRow ByExtension ext count
                           (format_percentage percentage)))
       (sorted_by_count_desc (Dict.items non_zero_exts)) ;;
  forM (fun ext =>
          print (LTableRow ByExtension ext 0 (format_percentage 0%Q)))
       (sorted_strings (Dict.keys zero_exts)).

(** Lines 115-157: the Reporter. *)
Definition report (folder_counts : Dict.t) (total_count : nat)
           (extension_counts : Dict.t) (elapsed : Q) : M unit :=
  print (LTitle BySubfolder) ;;
  print (LRule 70) ;;
  let max_folder_length := max_key_length folder_counts in
  print (LTableHeader BySubfolder (max_folder_length + 2)) ;;
  print (LTableRule (max_folder_length + 2)) ;;
  print_table1 folder_counts total_count ;;
  print (LTitle ByExtension) ;;
  print (LRule 70) ;;
  let max_ext_length := max_key_length extension_counts in
  let max_ext_length := Nat.max max_ext_length 10 in
  print (LTableHeader ByExtension (max_ext_length + 2)) ;;
  print (LTableRule (max_ext_length + 2)) ;;
  print_table2 extension_counts total_count ;;
  print (LRule 70) ;;
  print (LTotal total_count) ;;
  print (LElapsed elapsed).

(** Lines 93-157, after [argparse] has produced [args.path]. *)
Definition main (folder_path : string) : M unit :=
  ok <- isdir folder_path ;;
  (if negb ok then
     print (LError folder_path) ;;
     raise (SystemExit 1)
   else ret tt) ;;
  print (LSelected folder_path) ;;
  print (LExtensions (sorted_strings MUSIC_EXTENSIONS)) ;;
  print (LRule 70) ;;
  start_time <- time_time ;;
  '(folder_counts, total_count, extension_counts) <-
    count_music_files folder_path ;;
  now <- time_time ;;
  let elapsed := (now - start_time)%Q in
  report folder_counts total_count extension_counts elapsed.

(** The exit status of the interpreter: [0] when [main] returns, the code
    of [sys.exit], and [1] for an exception nobody catches. *)
Definition exit_status {A} (r : result A) : nat :=
  match r with
  | Ok _ => 0
  | Raise (SystemExit code) => code
  | Raise _ => 1
  end.

(** [if __name__ == "__main__": main()], from a fresh process. *)
Definition run (folder_path : string) : nat * state :=
  let '(r, st) := main folder_path init in (exit_status r, st).

End Program.

(* ================================================================== *)
(** * Facts about strings                                               *)
(* ================================================================== *)

Module StrFacts.
Import Str.

Lemma lower_char_idem (c : ascii) : lower_char (lower_char c) = lower_char c.
Proof. destruct c as [[] [] [] [] [] [] [] []]; reflexivity. Qed.

Lemma lower_char_dot (c : ascii) :
  Ascii.eqb (lower_char c) "." = Ascii.eqb c ".".
Proof. destruct c as [[] [] [] [] [] [] [] []]; reflexivity. Qed.

Lemma lower_idem (s : string) : lower (lower s) = lower s.
Proof.
  induction s as [|c r IH]; simpl; [reflexivity|].
  now rewrite lower_char_idem, IH.
Qed.

Lemma length_lower (s : string) : String.length (lower s) = String.length s.
Proof. induction s as [|c r IH]; simpl; congruence. Qed.

Lemma lower_app (s1 s2 : string) : lower (s1 ++ s2) = lower s1 ++ lower s2.
Proof. induction s1 as [|c r IH]; simpl; congruence. Qed.

Lemma rfind_lower (s : string) : rfind "." (lower s) = rfind "." s.
Proof.
  induction s as [|c r IH]; simpl; [reflexivity|].
  now rewrite IH, lower_char_dot.
Qed.

Lemma drop_lower (n : nat) (s : string) : drop n (lower s) = lower (drop n s).
Proof.
  revert s; induction n as [|n IH]; intros [|c r]; simpl; auto.
Qed.

Lemma suffix_lower (s : string) : suffix (lower s) = lower (suffix s).
Proof.
  unfold suffix. rewrite rfind_lower, length_lower.
  destruct (_ && _)%bool; [apply drop_lower | reflexivity].
Qed.

Lemma rfind_range (c : ascii) (s : string) :
  (-1 <= rfind c s < Z.of_nat (String.length s))%Z.
Proof.
  induction s as [|a r IH]; simpl; [lia|].
  destruct (0 <=? rfind c r)%Z eqn:E.
  - apply Z.leb_le in E. lia.
  - destruct (Ascii.eqb a c); lia.
Qed.

Lemma length_app (s1 s2 : string) :
  String.length (s1 ++ s2) = String.length s1 + String.length s2.
Proof. induction s1 as [|c r IH]; simpl; congruence. Qed.

Lemma drop_app (s1 s2 : string) : drop (String.length s1) (s1 ++ s2) = s2.
Proof. induction s1 as [|c r IH]; simpl; auto. Qed.

(** The last occurrence, when the tail after it has none. *)
Lemma rfind_last (c : ascii) (s1 s2 : string) :
  has_char c s2 = false ->
  rfind c (s1 ++ String c s2) = Z.of_nat (String.length s1).
Proof.
  unfold has_char. intros H.
  induction s1 as [|a r IH]; simpl.
  - rewrite H, Ascii.eqb_refl. reflexivity.
  - rewrite IH.
    destruct (0 <=? Z.of_nat (String.length r))%Z eqn:E; [lia|].
    apply Z.leb_gt in E. lia.
Qed.

Lemma suffix_no_dot (name : string) :
  has_char "." name = false -> suffix name = "".
Proof.
  unfold has_char, suffix. intros H.
  apply Z.leb_gt in H.
  destruct (0 <? rfind "." name)%Z eqn:E; [|reflexivity].
  apply Z.ltb_lt in E. lia.
Qed.

(** A name that only starts with its last dot has no suffix. *)
Lemma suffix_leading_dot (ext : string) :
  has_char "." ext = false -> suffix (String "." ext) = "".
Proof.
  intros H. unfold suffix.
  pose proof (rfind_last "." "" ext H) as R.
  change ("" ++ String "." ext) with (String "." ext) in R.
  rewrite R. reflexivity.
Qed.

(** A name that ends with its last dot has no suffix. *)
Lemma suffix_trailing_dot (stem : string) : suffix (stem ++ ".") = "".
Proof.
  unfold suffix.
  rewrite (rfind_last "." stem "" eq_refl), length_app. simpl.
  destruct (0 <? _)%Z; simpl; [|reflexivity].
  destruct (_ <? _)%Z eqn:E; [|reflexivity].
  apply Z.ltb_lt in E. lia.
Qed.

(** Otherwise the suffix starts at the last dot, the dot included. *)
Lemma suffix_split (stem ext : string) :
  stem <> "" -> ext <> "" -> has_char "." ext = false ->
  suffix (stem ++ String "." ext) = String "." ext.
Proof.
  intros Hs He Hd. unfold suffix.
  rewrite (rfind_last "." stem ext Hd), length_app.
  assert (Ls : 0 < String.length stem) by (destruct stem; simpl; [congruence | lia]).
  assert (Le : 0 < String.length ext) by (destruct ext; simpl; [congruence | lia]).
  assert (E1 : (0 <? Z.of_nat (String.length stem))%Z = true)
    by (apply Z.ltb_lt; lia).
  assert (E2 : (Z.of_nat (String.length stem) <?
                Z.of_nat (String.length stem + String.length (String "." ext)) - 1)%Z
               = true)
    by (apply Z.ltb_lt; cbn [String.length]; lia).
  rewrite E1, E2, Nat2Z.id. apply drop_app.
Qed.

Lemma mem_In (x : string) (s : list string) : mem x s = true <-> In x s.
Proof.
  unfold mem. rewrite existsb_exists. split.
  - intros [y [Hy E]]. apply String.eqb_eq in E. now subst.
  - intros H. exists x. split; [assumption | apply String.eqb_refl].
Qed.

End StrFacts.

Lemma file_ext_lower (name : string) : file_ext (Str.lower name) = file_ext name.
Proof.
  unfold file_ext. now rewrite StrFacts.suffix_lower, StrFacts.lower_idem.
Qed.

(** Names that differ only in letter case have the same extension. *)
Lemma file_ext_case_insensitive (n1 n2 : string) :
  Str.lower n1 = Str.lower n2 -> file_ext n1 = file_ext n2.
Proof.
  intros H. rewrite <- (file_ext_lower n1), <- (file_ext_lower n2). now rewrite H.
Qed.

Lemma is_music_lower (name : string) : is_music (Str.lower name) = is_music name.
Proof. unfold is_music. now rewrite file_ext_lower. Qed.

(* ================================================================== *)
(** * Facts about dictionaries                                          *)
(* ================================================================== *)

Module DictFacts.
Import Dict.
Local Close Scope string_scope.

Lemma get_set_same (d : t) (k : string) (v : nat) : get (set d k v) k = Some v.
Proof.
  induction d as [|[k' v'] r IH]; simpl.
  - now rewrite String.eqb_refl.
  - destruct (String.eqb k k') eqn:E; simpl; rewrite E; auto.
Qed.

Lemma get_set_other (d : t) (k k' : string) (v : nat) :
  k <> k' -> get (set d k v) k' = get d k'.
Proof.
  intros N. induction d as [|[k0 v0] r IH]; simpl.
  - destruct (String.eqb k' k) eqn:E; [|reflexivity].
    apply String.eqb_eq in E. congruence.
  - destruct (String.eqb k k0) eqn:E; simpl.
    + apply String.eqb_eq in E. subst k0.
      destruct (String.eqb k' k) eqn:E'; [|reflexivity].
      apply String.eqb_eq in E'. congruence.
    + now rewrite IH.
Qed.

Lemma get_keys (d : t) (k : string) : get d k <> None <-> In k (keys d).
Proof.
  induction d as [|[k' v'] r IH]; simpl.
  - tauto.
  - destruct (String.eqb k k') eqn:E.
    + apply String.eqb_eq in E. subst. split; [auto | discriminate].
    + apply String.eqb_neq in E. rewrite IH. split; [auto|].
      intros [H|H]; [congruence | assumption].
Qed.

Lemma getitem_absent (d : t) (k : string) : ~ In k (keys d) -> getitem d k = 0.
Proof.
  intros H. unfold getitem. destruct (get d k) eqn:E; [|reflexivity].
  exfalso. apply H, get_keys. congruence.
Qed.

(** Assigning a key replaces its old value in the sum of the values. *)
Lemma total_set (d : t) (k : string) (v : nat) :
  total (set d k v) + getitem d k = total d + v.
Proof.
  unfold total, values, getitem.
  induction d as [|[k' v'] r IH]; simpl.
  - lia.
  - destruct (String.eqb k k') eqn:E; simpl; lia.
Qed.

Lemma total_set_absent (d : t) (k : string) (v : nat) :
  ~ In k (keys d) -> total (set d k v) = total d + v.
Proof.
  intros H. pose proof (total_set d k v) as T.
  rewrite (getitem_absent d k H) in T. lia.
Qed.

Lemma total_incr (d : t) (k : string) : total (incr d k) = S (total d).
Proof. unfold incr. pose proof (total_set d k (getitem d k + 1)). lia. Qed.

Lemma keys_set_present (d : t) (k : string) (v : nat) :
  In k (keys d) -> keys (set d k v) = keys d.
Proof.
  induction d as [|[k' v'] r IH]; simpl; [tauto|].
  intros H. destruct (String.eqb k k') eqn:E; simpl; [reflexivity|].
  apply String.eqb_neq in E. f_equal. apply IH.
  destruct H; [congruence | assumption].
Qed.

Lemma keys_set_absent (d : t) (k : string) (v : nat) :
  ~ In k (keys d) -> keys (set d k v) = keys d ++ [k].
Proof.
  induction d as [|[k' v'] r IH]; simpl; [reflexivity|].
  intros H. destruct (String.eqb k k') eqn:E; simpl.
  - apply String.eqb_eq in E. subst. tauto.
  - f_equal. apply IH. tauto.
Qed.

Lemma keys_set_has (d : t) (k : string) (v : nat) : In k (keys (set d k v)).
Proof.
  destruct (in_dec string_dec k (keys d)) as [I|I].
  - now rewrite keys_set_present.
  - rewrite keys_set_absent by assumption. apply in_or_app. simpl; auto.
Qed.

Lemma keys_set_keeps (d : t) (k k' : string) (v : nat) :
  In k' (keys d) -> In k' (keys (set d k v)).
Proof.
  intros H. destruct (in_dec string_dec k (keys d)) as [I|I].
  - now rewrite keys_set_present.
  - rewrite keys_set_absent by assumption. apply in_or_app. now left.
Qed.

Lemma get_incr_same (d : t) (k : string) :
  get (incr d k) k = Some (getitem d k + 1).
Proof. apply get_set_same. Qed.

Lemma get_incr_other (d : t) (k k' : string) :
  k <> k' -> get (incr d k) k' = get d k'.
Proof. apply get_set_other. Qed.

Lemma keys_incr (d : t) (k : string) : In k (keys d) -> keys (incr d k) = keys d.
Proof. apply keys_set_present. Qed.

(** Counting a run of extensions, one [d[ext] += 1] each. *)
Lemma total_fold_incr (l : list string) (d : t) :
  total (fold_left incr l d) = total d + List.length l.
Proof.
  revert d; induction l as [|x l IH]; intros d; simpl; [lia|].
  rewrite IH, total_incr. lia.
Qed.

Lemma keys_fold_incr (l : list string) (d : t) :
  (forall x, In x l -> In x (keys d)) -> keys (fold_left incr l d) = keys d.
Proof.
  revert d; induction l as [|x l IH]; intros d H; simpl; [reflexivity|].
  rewrite IH.
  - apply keys_incr, H. now left.
  - intros y Hy. rewrite keys_incr; apply H; simpl; auto.
Qed.

Lemma get_fold_incr (l : list string) (d : t) (k : string) (v : nat) :
  get d k = Some v ->
  get (fold_left incr l d) k = Some (v + count_occ string_dec l k).
Proof.
  revert d v; induction l as [|x l IH]; intros d v H; simpl.
  - rewrite H. f_equal. lia.
  - destruct (string_dec x k) as [->|N].
    + rewrite (IH _ (v + 1)).
      * f_equal. lia.
      * rewrite get_incr_same. unfold getitem. now rewrite H.
    + apply IH. now rewrite get_incr_other.
Qed.

(** The dictionary built by assigning [0] to each key of [l] in turn. *)
Definition zeros (l : list string) (d : t) : t :=
  fold_left (fun d ext => set d ext 0) l d.

Lemma zeros_keys (l : list string) (d : t) :
  NoDup (keys d ++ l) -> keys (zeros l d) = keys d ++ l.
Proof.
  unfold zeros.
  revert d; induction l as [|x l IH]; intros d H; simpl.
  - now rewrite app_nil_r.
  - assert (Hx : ~ In x (keys d)).
    { intros Hin. apply NoDup_remove_2 in H. apply H.
      apply in_or_app. now left. }
    rewrite IH; rewrite keys_set_absent by assumption.
    + now rewrite <- app_assoc.
    + now rewrite <- app_assoc.
Qed.

Lemma zeros_total (l : list string) (d : t) :
  total d = 0 -> total (zeros l d) = 0.
Proof.
  unfold zeros.
  revert d; induction l as [|x l IH]; intros d H; simpl; [assumption|].
  apply IH. pose proof (total_set d x 0). lia.
Qed.

Lemma zeros_get (l : list string) (d : t) (k : string) :
  (forall k' v, get d k' = Some v -> v = 0) -> In k (keys d ++ l) ->
  get (zeros l d) k = Some 0.
Proof.
  unfold zeros.
  revert d; induction l as [|x l IH]; intros d Hz Hin; simpl.
  - rewrite app_nil_r in Hin. apply get_keys in Hin.
    destruct (get d k) as [v|] eqn:E; [|congruence].
    now rewrite (Hz k v E).
  - apply IH.
    + intros k' v. destruct (string_dec x k') as [->|N].
      * rewrite get_set_same. congruence.
      * rewrite get_set_other by assumption. apply Hz.
    + apply in_app_or in Hin. apply in_or_app.
      destruct Hin as [Hin|[<-|Hin]]; auto.
      * left. now apply keys_set_keeps.
      * left. apply keys_set_has.
Qed.

End DictFacts.

(* ================================================================== *)
(** * Facts about sorting                                               *)
(* ================================================================== *)

Section SortingFacts.
Context {A : Type}.
Variable before : A -> A -> bool.
Hypothesis before_total : forall x y, before x y = true \/ before y x = true.
Hypothesis before_trans :
  forall x y z, before x y = true -> before y z = true -> before x z = true.

Let R (x y : A) : Prop := before x y = true.

Lemma insert_sorted_perm (x : A) (l : list A) :
  Permutation (insert_sorted before x l) (x :: l).
Proof.
  induction l as [|y r IH]; simpl; [reflexivity|].
  destruct (before x y); [reflexivity|].
  rewrite IH. apply perm_swap.
Qed.

Lemma sorted_with_perm (l : list A) : Permutation (sorted_with before l) l.
Proof.
  induction l as [|x l IH]; simpl; [reflexivity|].
  rewrite insert_sorted_perm. now constructor.
Qed.

Lemma insert_sorted_sorted (x : A) (l : list A) :
  StronglySorted R l -> StronglySorted R (insert_sorted before x l).
Proof.
  induction 1 as [|y r Hs IH Hy]; simpl.
  - repeat constructor.
  - destruct (before x y) eqn:E.
    + constructor; [now constructor|].
      constructor; [exact E|].
      rewrite Forall_forall in *. intros z Hz.
      apply (before_trans x y z E), Hy, Hz.
    + constructor; [exact IH|].
      rewrite Forall_forall in *. intros z Hz.
      apply (Permutation_in _ (insert_sorted_perm x r)) in Hz.
      destruct Hz as [<-|Hz]; [|now apply Hy].
      destruct (before_total x y) as [T|T]; [congruence | exact T].
Qed.

Lemma sorted_with_sorted (l : list A) : StronglySorted R (sorted_with before l).
Proof.
  induction l as [|x l IH]; simpl; [constructor|].
  now apply insert_sorted_sorted.
Qed.
End SortingFacts.

Lemma ascii_compare_lt_trans (a b c : ascii) :
  Ascii.compare a b = Lt -> Ascii.compare b c = Lt -> Ascii.compare a c = Lt.
Proof.
  unfold Ascii.compare. rewrite !N.compare_lt_iff. lia.
Qed.

Lemma string_leb_trans (s1 s2 s3 : string) :
  String.leb s1 s2 = true -> String.leb s2 s3 = true -> String.leb s1 s3 = true.
Proof.
  unfold String.leb.
  revert s2 s3; induction s1 as [|a r1 IH]; intros [|b r2] [|c r3]; simpl;
    try congruence.
  destruct (Ascii.compare a b) eqn:Eab; try congruence;
    destruct (Ascii.compare b c) eqn:Ebc; try congruence; intros H1 H2.
  - apply Ascii.compare_eq_iff in Eab, Ebc. subst.
    replace (Ascii.compare c c) with Eq
      by (symmetry; unfold Ascii.compare; apply N.compare_refl).
    now apply (IH r2 r3).
  - apply Ascii.compare_eq_iff in Eab. subst. now rewrite Ebc.
  - apply Ascii.compare_eq_iff in Ebc. subst. now rewrite Eab.
  - now rewrite (ascii_compare_lt_trans a b c Eab Ebc).
Qed.

Lemma count_desc_total (x y : string * nat) :
  (snd y <=? snd x) = true \/ (snd x <=? snd y) = true.
Proof. rewrite !Nat.leb_le. lia. Qed.

Lemma count_desc_trans (x y z : string * nat) :
  (snd y <=? snd x) = true -> (snd z <=? snd y) = true ->
  (snd z <=? snd x) = true.
Proof. rewrite !Nat.leb_le. lia. Qed.

(* ================================================================== *)
(** * What a scan counts                                                *)
(* ================================================================== *)

(** The extensions of the catalog files among [files], in their order. *)
Definition music_exts (files : list string) : list string :=
  map file_ext (filter is_music files).

(** Every file name that [os.walk] reports below a top-level subdirectory. *)
Definition subdir_files (subdir : node) : list string :=
  List.concat (os_walk subdir).

(** The number of catalog files below a top-level subdirectory. *)
Definition subdir_total (subdir : node) : nat :=
  List.length (music_exts (subdir_files subdir)).

(** The file names a scan of the root looks at: the regular files of a
    root without subdirectories, otherwise everything the walks of the
    top-level subdirectories report. *)
Definition scanned_files (root : path_target) : list string :=
  match root with
  | Listing entries =>
      match filter is_dir entries with
      | [] => map node_name (filter is_file entries)
      | subdirs => flat_map subdir_files subdirs
      end
  | Missing | NotDir | Unreadable => []
  end.

Lemma music_exts_app (l1 l2 : list string) :
  music_exts (l1 ++ l2)%list = (music_exts l1 ++ music_exts l2)%list.
Proof. unfold music_exts. now rewrite filter_app, map_app. Qed.

Lemma music_exts_catalog (files : list string) (x : string) :
  In x (music_exts files) -> In x MUSIC_EXTENSIONS.
Proof.
  unfold music_exts. rewrite in_map_iff.
  intros [f [<- Hf]]. apply filter_In in Hf. destruct Hf as [_ Hf].
  now apply StrFacts.mem_In.
Qed.

(** A file outside the catalog contributes nothing. *)
Lemma music_exts_skip (file : string) (files : list string) :
  is_music file = false -> music_exts (file :: files) = music_exts files.
Proof. unfold music_exts. simpl. now intros ->. Qed.

Lemma music_exts_count (file : string) (files : list string) :
  is_music file = true -> music_exts (file :: files) = file_ext file :: music_exts files.
Proof. unfold music_exts. simpl. now intros ->. Qed.

(* ================================================================== *)
(** * The monad: inversion of a successful run                          *)
(* ================================================================== *)

Lemma bind_Ok {A B} (m : M A) (k : A -> M B) (st : state) (b : B) (st' : state) :
  bind m k st = (Ok b, st') ->
  exists a st1, m st = (Ok a, st1) /\ k a st1 = (Ok b, st').
Proof.
  unfold bind. destruct (m st) as [[a|e] st1]; [eauto | discriminate].
Qed.

Lemma bind_eq {A B} (m : M A) (k : A -> M B) (st : state) (a : A) (st1 : state) :
  m st = (Ok a, st1) -> bind m k st = k a st1.
Proof. unfold bind. now intros ->. Qed.

Ltac inv_bind H :=
  let a := fresh "a" in
  let s := fresh "st" in
  let E := fresh "E" in
  apply bind_Ok in H; destruct H as (a & s & E & H).

Ltac inv_ret H := unfold ret in H; inversion H; subst; clear H.

Arguments Str.mem : simpl never.
Arguments file_ext : simpl never.
Arguments is_music : simpl never.
Arguments Dict.incr : simpl never.
Arguments Dict.set : simpl never.
Arguments os_walk : simpl never.
Arguments Nat.modulo : simpl never.

(** The entry a finished subdirectory leaves in the Folder Count Map. *)
Definition record_subdir (d : Dict.t) (subdir : node) : Dict.t :=
  Dict.set d (node_name subdir) (subdir_total subdir).

(** The Folder Count Map of a scan that returns. *)
Definition folder_map (root_path : string) (root : path_target) : Dict.t :=
  match root with
  | Listing entries =>
      match filter is_dir entries with
      | [] => [(Str.basename root_path,
                List.length (music_exts (scanned_files root)))]
      | subdirs => fold_left record_subdir subdirs []
      end
  | Missing | NotDir | Unreadable => []
  end.

Section ScanFacts.
Variable clock : nat -> Q.
Variable fs : string -> path_target.
Variable set_iter : list string.

Lemma scan_file_Ok name t0 file sc tc ec st sc' tc' ec' st' :
  scan_file clock name t0 file (sc, tc, ec) st = (Ok (sc', tc', ec'), st') ->
  sc' = sc + List.length (music_exts [file]) /\
  tc' = tc + List.length (music_exts [file]) /\
  ec' = fold_left Dict.incr (music_exts [file]) ec.
Proof.
  unfold scan_file. fold (is_music file).
  destruct (is_music file) eqn:E.
  - rewrite (music_exts_count file [] E).
    destruct ((sc + 1) mod 100 =? 0).
    + unfold bind, time_time, truediv, print, emit, ret, raise.
      destruct (Qeq_bool _ 0); intros H; inversion H; subst.
      simpl. repeat split; lia.
    + intros H. inv_ret H. simpl. repeat split; lia.
  - rewrite (music_exts_skip file [] E).
    intros H. inv_ret H. simpl. repeat split; lia.
Qed.

Lemma scan_files_Ok name t0 files :
  forall sc tc ec st sc' tc' ec' st',
    foldM (scan_file clock name t0) files (sc, tc, ec) st
    = (Ok (sc', tc', ec'), st') ->
    sc' = sc + List.length (music_exts files) /\
    tc' = tc + List.length (music_exts files) /\
    ec' = fold_left Dict.incr (music_exts files) ec.
Proof.
  induction files as [|file files IH]; intros sc tc ec st sc' tc' ec' st' H.
  - inv_ret H. simpl. repeat split; lia.
  - simpl in H. inv_bind H. destruct a as [[sc1 tc1] ec1].
    apply scan_file_Ok in E. destruct E as (-> & -> & ->).
    apply IH in H. destruct H as (-> & -> & ->).
    change (file :: files) with ([file] ++ files)%list.
    rewrite music_exts_app, length_app, fold_left_app.
    repeat split; lia.
Qed.

Lemma scan_walk_Ok name t0 (walk : list (list string)) :
  forall sc tc ec st sc' tc' ec' st',
    foldM (fun files acc => foldM (scan_file clock name t0) files acc)
          walk (sc, tc, ec) st
    = (Ok (sc', tc', ec'), st') ->
    sc' = sc + List.length (music_exts (List.concat walk)) /\
    tc' = tc + List.length (music_exts (List.concat walk)) /\
    ec' = fold_left Dict.incr (music_exts (List.concat walk)) ec.
Proof.
  induction walk as [|files walk IH]; intros sc tc ec st sc' tc' ec' st' H.
  - inv_ret H. simpl. repeat split; lia.
  - simpl in H. inv_bind H. destruct a as [[sc1 tc1] ec1].
    apply scan_files_Ok in E. destruct E as (-> & -> & ->).
    apply IH in H. destruct H as (-> & -> & ->).
    simpl List.concat.
    rewrite music_exts_app, length_app, fold_left_app.
    repeat split; lia.
Qed.

(** One top-level subdirectory: what the iteration adds to each of the
    loop variables, and the row it prints last. *)
Lemma scan_subdir_Ok subdir mfc tc cc ec st mfc' tc' cc' ec' st' :
  scan_subdir clock subdir (mfc, tc, cc, ec) st
  = (Ok (mfc', tc', cc', ec'), st') ->
  mfc' = record_subdir mfc subdir /\
  tc' = tc + subdir_total subdir /\
  cc' = cc + subdir_total subdir /\
  ec' = fold_left Dict.incr (music_exts (subdir_files subdir)) ec /\
  exists fps rest,
    log st' =
    Print (LSubdirRow (node_name subdir) (subdir_total subdir) cc' fps) :: rest.
Proof.
  unfold scan_subdir. intros H.
  inv_bind H. inv_bind H. inv_bind H. inv_bind H.
  destruct a2 as [[sc1 tc1] ec1].
  apply scan_walk_Ok in E2. destruct E2 as (-> & -> & ->).
  inv_bind H. inv_bind H. inv_bind H.
  unfold print, emit in E4. inversion E4; subst.
  inv_ret H. simpl.
  unfold record_subdir, subdir_total, subdir_files.
  repeat split; eauto.
Qed.

Lemma scan_subdirs_Ok (subdirs : list node) :
  forall mfc tc cc ec st mfc' tc' cc' ec' st',
    foldM (scan_subdir clock) subdirs (mfc, tc, cc, ec) st
    = (Ok (mfc', tc', cc', ec'), st') ->
    mfc' = fold_left record_subdir subdirs mfc /\
    tc' = tc + List.length (music_exts (flat_map subdir_files subdirs)) /\
    cc' = cc + List.length (music_exts (flat_map subdir_files subdirs)) /\
    ec' = fold_left Dict.incr (music_exts (flat_map subdir_files subdirs)) ec /\
    (subdirs <> [] ->
     exists name sc fps rest,
       log st' = Print (LSubdirRow name sc cc' fps) :: rest).
Proof.
  induction subdirs as [|s subdirs IH];
    intros mfc tc cc ec st mfc' tc' cc' ec' st' H.
  - inv_ret H. simpl. repeat split; try lia. congruence.
  - simpl in H. inv_bind H. destruct a as [[[mfc1 tc1] cc1] ec1].
    apply scan_subdir_Ok in E.
    destruct E as (-> & -> & -> & -> & fps & rest & L).
    destruct subdirs as [|s' subdirs].
    + inv_ret H. simpl. rewrite app_nil_r.
      unfold subdir_total. repeat split; eauto.
    + apply IH in H. destruct H as (Hm & Ht & Hc & He & R).
      assert (L' : exists name sc fps rest,
                 log st' = Print (LSubdirRow name sc cc' fps) :: rest)
        by (apply R; discriminate).
      subst mfc' tc' cc' ec'.
      simpl flat_map.
      rewrite !music_exts_app, !length_app, !fold_left_app.
      unfold subdir_total in *.
      repeat split; try lia.
      intros _. destruct L' as (name & sc & fps' & rest' & L').
      exists name, sc, fps', rest'. rewrite L'. do 3 f_equal.
      simpl flat_map.
      rewrite !music_exts_app, !length_app. lia.
Qed.

(** The loop over the root's own entries (flat root). *)
Lemma scan_root_entries (entries : list node) :
  forall count ec,
    fold_left (fun acc f => scan_root_entry f acc) entries (count, ec)
    = (count + List.length (music_exts (map node_name (filter is_file entries))),
       fold_left Dict.incr
                 (music_exts (map node_name (filter is_file entries))) ec).
Proof.
  induction entries as [|f entries IH]; intros count ec.
  - simpl. f_equal. lia.
  - cbn [fold_left filter].
    remember (scan_root_entry f (count, ec)) as acc eqn:A.
    unfold scan_root_entry in A. fold (is_music (node_name f)) in A.
    destruct (is_file f) eqn:F.
    + simpl map. destruct (is_music (node_name f)) eqn:E; subst acc.
      * rewrite IH, (music_exts_count _ _ E). simpl. f_equal. lia.
      * rewrite IH, (music_exts_skip _ _ E). reflexivity.
    + subst acc. apply IH.
Qed.

(** The results of a scan that returns. *)
Lemma count_music_files_Ok root_path st mfc total ec st' :
  count_music_files clock fs set_iter root_path st = (Ok (mfc, total, ec), st') ->
  mfc = folder_map root_path (fs root_path) /\
  total = List.length (music_exts (scanned_files (fs root_path))) /\
  ec = fold_left Dict.incr (music_exts (scanned_files (fs root_path)))
                 (initial_extension_counts set_iter).
Proof.
  unfold count_music_files. intros H. inv_bind H.
  unfold try_except, scandir, bind, emit, raise, ret, print in E.
  simpl in E.
  destruct (fs root_path) as [| | |entries] eqn:F; simpl in E;
    try discriminate.
  - inversion E; subst. inv_ret H. simpl. auto.
  - destruct (filter is_dir entries) as [|s subdirs] eqn:D.
    + rewrite scan_root_entries in E. inversion E; subst.
      inv_ret H. simpl. rewrite D. auto.
    + inversion E; subst.
      inv_bind H. inv_bind H. inv_bind H. inv_bind H.
      destruct a2 as [[[mfc1 tc1] cc1] ec1].
      apply scan_subdirs_Ok in E3. destruct E3 as (-> & -> & -> & -> & _).
      inv_ret H. simpl. rewrite D. auto.
Qed.

End ScanFacts.

(* ================================================================== *)
(** * When a scan returns                                               *)
(* ================================================================== *)

Lemma elapsed_zero (a b : Q) : Qeq_bool (a - b) 0 = true -> (a == b)%Q.
Proof. intros H. apply Qeq_bool_eq in H. lra. Qed.

Section ScanReturns.
Variable clock : nat -> Q.
Variable fs : string -> path_target.
Variable set_iter : list string.

(** No two readings of the clock are equal. *)
Hypothesis clock_distinct : forall i j, i < j -> ~ (clock j == clock i)%Q.

Lemma scan_file_returns name t0 file acc st :
  t0 < ticks st ->
  exists acc' st',
    scan_file clock name (clock t0) file acc st = (Ok acc', st') /\
    ticks st <= ticks st'.
Proof.
  intros T. destruct acc as [[sc tc] ec]. unfold scan_file.
  destruct (Str.mem _ _);
    [|do 2 eexists; split; [reflexivity | lia]].
  destruct (_ =? 0);
    [|do 2 eexists; split; [reflexivity | lia]].
  unfold bind, time_time, truediv, print, emit, ret, raise.
  destruct (Qeq_bool _ 0) eqn:Z.
  - exfalso. apply elapsed_zero in Z. now apply (clock_distinct _ _ T).
  - do 2 eexists; split; [reflexivity | simpl; lia].
Qed.

Lemma scan_files_returns name t0 files :
  forall acc st,
    t0 < ticks st ->
    exists acc' st',
      foldM (scan_file clock name (clock t0)) files acc st = (Ok acc', st') /\
      ticks st <= ticks st'.
Proof.
  induction files as [|file files IH]; intros acc st T; simpl.
  - do 2 eexists; split; [reflexivity | lia].
  - destruct (scan_file_returns name t0 file acc st T) as (a1 & st1 & E1 & T1).
    destruct (IH a1 st1 ltac:(lia)) as (a2 & st2 & E2 & T2).
    exists a2, st2. rewrite (bind_eq _ _ _ _ _ E1). split; [exact E2 | lia].
Qed.

Lemma scan_walk_returns name t0 (walk : list (list string)) :
  forall acc st,
    t0 < ticks st ->
    exists acc' st',
      foldM (fun files acc => foldM (scan_file clock name (clock t0)) files acc)
            walk acc st = (Ok acc', st') /\
      ticks st <= ticks st'.
Proof.
  induction walk as [|files walk IH]; intros acc st T; simpl.
  - do 2 eexists; split; [reflexivity | lia].
  - destruct (scan_files_returns name t0 files acc st T) as (a1 & st1 & E1 & T1).
    destruct (IH a1 st1 ltac:(lia)) as (a2 & st2 & E2 & T2).
    exists a2, st2. rewrite (bind_eq _ _ _ _ _ E1). split; [exact E2 | lia].
Qed.

Lemma scan_subdir_returns subdir acc st :
  exists acc' st', scan_subdir clock subdir acc st = (Ok acc', st').
Proof.
  destruct acc as [[[mfc tc] cc] ec]. unfold scan_subdir.
  unfold bind at 1, print at 1, emit at 1.
  unfold bind at 1, time_time at 1.
  unfold bind at 1, emit at 1.
  cbn [ticks log].
  destruct (scan_walk_returns (node_name subdir) (ticks st) (os_walk subdir)
              (0, tc, ec)
              (mkState (S (ticks st))
                       (Walk (node_name subdir)
                             :: Print (LScanning (node_name subdir)) :: log st))
              ltac:(simpl; lia))
    as ([[sc1 tc1] ec1] & st1 & E1 & _).
  rewrite (bind_eq _ _ _ _ _ E1).
  unfold bind, time_time, truthy, truediv, print, emit, ret, raise.
  destruct (Qeq_bool _ 0); simpl; eauto.
Qed.

Lemma scan_subdirs_returns (subdirs : list node) :
  forall acc st,
    exists acc' st', foldM (scan_subdir clock) subdirs acc st = (Ok acc', st').
Proof.
  induction subdirs as [|s subdirs IH]; intros acc st; simpl.
  - unfold ret; eauto.
  - destruct (scan_subdir_returns s acc st) as (a1 & st1 & E1).
    rewrite (bind_eq _ _ _ _ _ E1). apply IH.
Qed.

(** On a directory, readable or not, the scan returns its three results. *)
Lemma count_music_files_returns root_path st :
  fs root_path <> Missing -> fs root_path <> NotDir ->
  exists results st',
    count_music_files clock fs set_iter root_path st = (Ok results, st').
Proof.
  intros N1 N2. unfold count_music_files.
  unfold try_except, scandir.
  unfold bind at 1. unfold bind at 1. unfold bind at 1.
  unfold emit at 1.
  destruct (fs root_path) as [| | |entries] eqn:F; try congruence.
  - unfold raise, bind, print, emit, ret. simpl. eauto.
  - unfold ret at 1.
    destruct (filter is_dir entries) as [|s subdirs] eqn:D.
    + unfold bind, print, emit, ret.
      destruct (fold_left _ entries _) as [count ec]. simpl. eauto.
    + unfold ret at 1.
      unfold bind at 1, print at 1, emit at 1.
      unfold bind at 1, print at 1, emit at 1.
      unfold bind at 1, print at 1, emit at 1.
      match goal with
      | |- context [bind (foldM (scan_subdir clock) ?l ?a) _ ?s] =>
          destruct (scan_subdirs_returns l a s) as ([[[m t] c] e] & st1 & E1)
      end.
      rewrite (bind_eq _ _ _ _ _ E1). unfold ret. eauto.
Qed.

End ScanReturns.

(* ================================================================== *)
(** * What the Reporter prints                                          *)
(* ================================================================== *)

(** The state after printing [lines], oldest first. *)
Definition printed (lines : list line) (st : state) : state :=
  mkState (ticks st) (rev (map Print lines) ++ log st)%list.

Lemma print_eq (l : line) (st : state) : print l st = (Ok tt, printed [l] st).
Proof. reflexivity. Qed.

Lemma printed_app (l1 l2 : list line) (st : state) :
  printed l2 (printed l1 st) = printed (l1 ++ l2)%list st.
Proof.
  unfold printed. simpl. now rewrite map_app, rev_app_distr, app_assoc.
Qed.

Lemma printed_nil (st : state) : printed [] st = st.
Proof. now destruct st. Qed.

Lemma output_printed (lines : list line) (st : state) :
  output (printed lines st) = (output st ++ lines)%list.
Proof.
  unfold output, printed. simpl.
  rewrite rev_app_distr, rev_involutive, flat_map_app. f_equal.
  induction lines as [|l lines IH]; simpl; congruence.
Qed.

(** The value of the percentage column. *)
Definition percentage_value (count total_count : nat) : Q :=
  if 0 <? total_count
  then (Q_of_nat count / Q_of_nat total_count * 100)%Q
  else 0%Q.

(** The guard [total_count > 0] keeps the division away from zero. *)
Lemma percentage_Ok (count total_count : nat) (st : state) :
  percentage count total_count st = (Ok (percentage_value count total_count), st).
Proof.
  unfold percentage, percentage_value.
  destruct (0 <? total_count) eqn:G; [|reflexivity].
  apply Nat.ltb_lt in G.
  unfold bind, truediv.
  replace (Qeq_bool (Q_of_nat total_count) 0) with false; [reflexivity|].
  symmetry. unfold Qeq_bool, Q_of_nat. simpl. apply Z.eqb_neq. lia.
Qed.

(** A row with a count, and a row of the zero group. *)
Definition count_row (t : table) (total_count : nat) (item : string * nat) : line :=
  LTableRow t (fst item) (snd item)
            (format_percentage (percentage_value (snd item) total_count)).

Definition zero_row (ext : string) : line :=
  LTableRow ByExtension ext 0 (format_percentage 0%Q).

Lemma forM_prints {B} (body : B -> M unit) (row : B -> line) :
  (forall x st, body x st = (Ok tt, printed [row x] st)) ->
  forall l st, forM body l st = (Ok tt, printed (map row l) st).
Proof.
  intros Hb. induction l as [|x l IH]; intros st; simpl.
  - unfold ret. now rewrite printed_nil.
  - rewrite (bind_eq _ _ _ _ _ (Hb x st)), IH.
    now rewrite printed_app.
Qed.

Definition table1_rows (folder_counts : Dict.t) (total_count : nat) : list line :=
  map (count_row BySubfolder total_count)
      (sorted_by_count_desc (Dict.items folder_counts)).

Definition table2_rows (extension_counts : Dict.t) (total_count : nat)
  : list line :=
  (map (count_row ByExtension total_count)
       (sorted_by_count_desc
          (filter (fun '(_, count) => 0 <? count) (Dict.items extension_counts)))
   ++ map zero_row
       (sorted_strings
          (Dict.keys
             (filter (fun '(_, count) => count =? 0)
                     (Dict.items extension_counts)))))%list.

Lemma print_table1_eq folder_counts total_count st :
  print_table1 folder_counts total_count st
  = (Ok tt, printed (table1_rows folder_counts total_count) st).
Proof.
  unfold print_table1, table1_rows. apply forM_prints.
  intros [folder count] st0.
  now rewrite (bind_eq _ _ _ _ _ (percentage_Ok count total_count st0)).
Qed.

Lemma print_table2_eq extension_counts total_count st :
  print_table2 extension_counts total_count st
  = (Ok tt, printed (table2_rows extension_counts total_count) st).
Proof.
  unfold print_table2, table2_rows.
  erewrite bind_eq.
  2:{ apply (forM_prints _ (count_row ByExtension total_count)).
      intros [ext count] st0.
      now rewrite (bind_eq _ _ _ _ _ (percentage_Ok count total_count st0)). }
  rewrite (forM_prints _ zero_row) by reflexivity.
  now rewrite printed_app.
Qed.

Definition report_lines (folder_counts : Dict.t) (total_count : nat)
           (extension_counts : Dict.t) (elapsed : Q) : list line :=
  ([ LTitle BySubfolder; LRule 70;
     LTableHeader BySubfolder (max_key_length folder_counts + 2);
     LTableRule (max_key_length folder_counts + 2) ]
   ++ table1_rows folder_counts total_count
   ++ [ LTitle ByExtension; LRule 70;
        LTableHeader ByExtension
                     (Nat.max (max_key_length extension_counts) 10 + 2);
        LTableRule (Nat.max (max_key_length extension_counts) 10 + 2) ]
   ++ table2_rows extension_counts total_count
   ++ [ LRule 70; LTotal total_count; LElapsed elapsed ])%list.

(** The Reporter never raises: it prints its lines and returns. *)
Lemma report_eq folder_counts total_count extension_counts elapsed st :
  report folder_counts total_count extension_counts elapsed st
  = (Ok tt,
     printed (report_lines folder_counts total_count extension_counts elapsed) st).
Proof.
  unfold report, report_lines.
  repeat (rewrite (bind_eq _ _ _ _ _ (print_eq _ _)), ?printed_app).
  rewrite (bind_eq _ _ _ _ _ (print_table1_eq _ _ _)), printed_app.
  repeat (rewrite (bind_eq _ _ _ _ _ (print_eq _ _)), ?printed_app).
  rewrite (bind_eq _ _ _ _ _ (print_table2_eq _ _ _)), printed_app.
  repeat (rewrite (bind_eq _ _ _ _ _ (print_eq _ _)), ?printed_app).
  rewrite print_eq, printed_app.
  repeat (rewrite <- app_assoc; simpl). reflexivity.
Qed.

(** The texts of the percentage column among [lines]. *)
Definition percentages (lines : list line) : list string :=
  flat_map (fun l => match l with
                     | LTableRow _ _ _ p => [p]
                     | _ => []
                     end) lines.

Lemma percentages_app (l1 l2 : list line) :
  percentages (l1 ++ l2)%list = (percentages l1 ++ percentages l2)%list.
Proof. apply flat_map_app. Qed.

Lemma percentages_count_rows_zero (t : table) (items : list (string * nat)) :
  Forall (eq "     0.00%") (percentages (map (count_row t 0) items)).
Proof.
  induction items as [|x items IH]; simpl; constructor; auto.
Qed.

Lemma percentages_zero_rows (exts : list string) :
  Forall (eq "     0.00%") (percentages (map zero_row exts)).
Proof.
  induction exts as [|x exts IH]; simpl; constructor; auto.
Qed.

(* ================================================================== *)
(** * Directory listings and the Folder Count Map                       *)
(* ================================================================== *)

(** No name occurs twice. *)
Fixpoint distinct (names : list string) : bool :=
  match names with
  | [] => true
  | x :: r => negb (Str.mem x r) && distinct r
  end.

(** A file system gives the entries of one directory distinct names. *)
Definition names_distinct (root : path_target) : bool :=
  match root with
  | Listing entries => distinct (map node_name entries)
  | Missing | NotDir | Unreadable => true
  end.

Lemma distinct_NoDup (names : list string) :
  distinct names = true -> NoDup names.
Proof.
  induction names as [|x r IH]; simpl; [constructor|].
  intros H. apply andb_true_iff in H. destruct H as [H1 H2].
  constructor; [|auto].
  intros I. apply StrFacts.mem_In in I. rewrite I in H1. discriminate.
Qed.

Lemma NoDup_map_filter {A B} (f : A -> B) (p : A -> bool) (l : list A) :
  NoDup (map f l) -> NoDup (map f (filter p l)).
Proof.
  induction l as [|x l IH]; simpl; [auto|].
  intros H. inversion H as [|? ? N D]; subst.
  destruct (p x); simpl; [|auto].
  constructor; [|auto].
  intros I. apply N. apply in_map_iff in I. destruct I as [y [E I]].
  apply filter_In in I. apply in_map_iff. exists y. tauto.
Qed.

Lemma existsb_filter_nil {A} (p : A -> bool) (l : list A) :
  existsb p l = false <-> filter p l = [].
Proof.
  induction l as [|x l IH]; simpl; [tauto|].
  destruct (p x); simpl; [split; discriminate | exact IH].
Qed.

Lemma folder_map_subdirs (subdirs : list node) :
  forall d,
    NoDup (map node_name subdirs) ->
    (forall s, In s subdirs -> ~ In (node_name s) (Dict.keys d)) ->
    Dict.total (fold_left record_subdir subdirs d)
    = Dict.total d + List.length (music_exts (flat_map subdir_files subdirs)) /\
    Dict.keys (fold_left record_subdir subdirs d)
    = (Dict.keys d ++ map node_name subdirs)%list.
Proof.
  induction subdirs as [|s subdirs IH]; intros d N F; simpl.
  - rewrite app_nil_r. split; [lia | reflexivity].
  - inversion N as [|? ? Ns Nr]; subst.
    assert (Hs : ~ In (node_name s) (Dict.keys d)) by (apply F; now left).
    destruct (IH (record_subdir d s) Nr) as [T K].
    + intros s' I. unfold record_subdir.
      rewrite DictFacts.keys_set_absent by assumption.
      intros I'. apply in_app_or in I'. destruct I' as [I'|[E|[]]].
      * apply (F s'); [now right | assumption].
      * apply Ns. rewrite E. now apply in_map.
    + rewrite T, K. unfold record_subdir.
      rewrite DictFacts.total_set_absent, DictFacts.keys_set_absent by assumption.
      rewrite music_exts_app, length_app, <- app_assoc.
      unfold subdir_total. split; [lia | reflexivity].
Qed.

(** Every key of the Folder Count Map is the name of a subdirectory that
    was recorded, or was there before. *)
Lemma folder_map_keys (subdirs : list node) :
  forall d k,
    In k (Dict.keys (fold_left record_subdir subdirs d)) ->
    In k (Dict.keys d) \/ In k (map node_name subdirs).
Proof.
  induction subdirs as [|s subdirs IH]; intros d k H; simpl in *; [auto|].
  apply IH in H. destruct H as [H|H]; [|auto].
  unfold record_subdir in H.
  destruct (in_dec string_dec (node_name s) (Dict.keys d)) as [I|I].
  - rewrite DictFacts.keys_set_present in H by assumption. auto.
  - rewrite DictFacts.keys_set_absent in H by assumption.
    apply in_app_or in H. destruct H as [H|[H|[]]]; auto.
Qed.

(** Files outside the catalog do not show in the count of a catalog
    extension. *)
Lemma count_occ_music_exts (files : list string) (k : string) :
  In k MUSIC_EXTENSIONS ->
  count_occ string_dec (music_exts files) k
  = count_occ string_dec (map file_ext files) k.
Proof.
  intros Hk. induction files as [|f files IH]; [reflexivity|].
  destruct (is_music f) eqn:E.
  - rewrite (music_exts_count _ _ E). simpl. now rewrite IH.
  - rewrite (music_exts_skip _ _ E). simpl.
    destruct (string_dec (file_ext f) k) as [<-|N]; [|exact IH].
    apply StrFacts.mem_In in Hk. unfold is_music in E. congruence.
Qed.

Lemma length_music_exts (files : list string) :
  List.length (music_exts files) = List.length (filter is_music files).
Proof. unfold music_exts. apply length_map. Qed.

Lemma filter_music_files (entries : list node) :
  filter is_music (map node_name (filter is_file entries))
  = map node_name
        (filter (fun f => is_file f && is_music (node_name f))%bool entries).
Proof.
  induction entries as [|f entries IH]; simpl; [reflexivity|].
  destruct (is_file f); simpl; [|exact IH].
  destruct (is_music (node_name f)); simpl; now rewrite IH.
Qed.

Lemma catalog_NoDup : NoDup MUSIC_EXTENSIONS.
Proof. apply distinct_NoDup. reflexivity. Qed.

(** The last cumulative count shown in the progress table. *)
Definition last_cumulative (out : list line) : option nat :=
  fold_left (fun acc l => match l with
                          | LSubdirRow _ _ cumulative_count _ =>
                              Some cumulative_count
                          | _ => acc
                          end) out None.

Lemma output_cons_print (l : line) (rest : list event) (n : nat) :
  output (mkState n (Print l :: rest)) = (output (mkState n rest) ++ [l])%list.
Proof. unfold output. simpl. now rewrite flat_map_app. Qed.

Section LastRow.
Variable clock : nat -> Q.
Variable fs : string -> path_target.
Variable set_iter : list string.

(** With at least one subdirectory, the last thing a returning scan
    prints is the row of the last subdirectory, and its cumulative count
    is the Total Count. *)
Lemma count_music_files_last_row root_path entries st mfc total ec st' :
  fs root_path = Listing entries ->
  filter is_dir entries <> [] ->
  count_music_files clock fs set_iter root_path st = (Ok (mfc, total, ec), st') ->
  exists name sc fps rest,
    log st' = Print (LSubdirRow name sc total fps) :: rest.
Proof.
  intros F D H. unfold count_music_files in H. inv_bind H.
  unfold try_except, scandir, bind, emit, raise, ret, print in E.
  simpl in E. rewrite F in E.
  destruct (filter is_dir entries) as [|s subdirs] eqn:DD; [congruence|].
  inversion E; subst.
  inv_bind H. inv_bind H. inv_bind H. inv_bind H.
  destruct a2 as [[[mfc1 tc1] cc1] ec1].
  apply scan_subdirs_Ok in E3.
  destruct E3 as (-> & -> & -> & -> & R).
  inv_ret H. apply R. discriminate.
Qed.
End LastRow.

(* ================================================================== *)
(** * Sample inputs                                                     *)
(* ================================================================== *)

Module Examples.

(** A clock that advances by one second at every reading. *)
Definition ticking_clock (n : nat) : Q := Q_of_nat n.

(** A timer of coarse resolution: four readings in a row are equal. *)
Definition coarse_clock (n : nat) : Q := inject_Z (1000 + Z.of_nat (n / 4)).

Definition tracks (n : nat) : list node :=
  map (fun i => File ("track" ++ decimal i ++ ".mp3")) (seq 1 n).

(** [/flat]: three catalog files directly in the root, no subdirectory.
    [/library]: subdirectory [A] with five catalog files two levels down,
    subdirectory [B] with none.
    [/mixed]: files of the root itself, a link to a directory, a link
    inside a walked directory.
    [/music]: one album of a hundred tracks.
    [/locked]: a directory that may not be listed.
    [/song.mp3]: a regular file. *)
Definition flat_entries : list node :=
  [ File "one.mp3"; File "Two.FLAC"; File "notes.txt";
    Other "socket.mp3"; File "three.ogg"; File ".mp3" ].

Definition library_entries : list node :=
  [ Dir "A" [ Dir "disc1" [ Dir "cd" (tracks 5) ]; File "cover.jpg" ];
    Dir "B" [ File "readme.txt" ] ].

Definition mixed_entries : list node :=
  [ File "loose.mp3";
    Dir "A" [ File "1.Mp3";
              Dir "deep" [ File "2.wav";
                           DirLink "elsewhere" [ File "no.mp3" ] ] ];
    DirLink "B" [ File "q.aif"; Dir "in" [ File "r.AIFF" ] ];
    Dir "C" [] ].

Definition fs (path : string) : path_target :=
  if String.eqb path "/flat" then Listing flat_entries
  else if String.eqb path "/library" then Listing library_entries
  else if String.eqb path "/mixed" then Listing mixed_entries
  else if String.eqb path "/music" then Listing [ Dir "album" (tracks 100) ]
  else if String.eqb path "/locked" then Unreadable
  else if String.eqb path "/song.mp3" then NotDir
  else Missing.

End Examples.

(* ================================================================== *)
(** * The properties of the specification                               *)
(* ================================================================== *)

(** The names of the root's immediate subdirectories. *)
Definition top_level_names (root : path_target) : list string :=
  match root with
  | Listing entries => map node_name (filter is_dir entries)
  | Missing | NotDir | Unreadable => []
  end.

(** The number of catalog files directly in a directory. *)
Definition direct_count (entries : list node) : nat :=
  List.length (filter (fun f => is_file f && is_music (node_name f))%bool entries).

(** C1.  Whenever [count_music_files] returns, on a root whose entries
    have distinct names, the Total Count is the sum of the values of the
    Folder Count Map and the sum of the values of the Extension Count Map. *)
Theorem C1_total_is_the_sum_of_both_maps
        (clock : nat -> Q) (fs : string -> path_target) (set_iter : list string)
        (root_path : string) (st : state)
        (mfc : Dict.t) (total : nat) (ec : Dict.t) (st' : state) :
  names_distinct (fs root_path) = true ->
  count_music_files clock fs set_iter root_path st = (Ok (mfc, total, ec), st') ->
  total = Dict.total mfc /\ total = Dict.total ec.
Proof.
  intros W H. apply count_music_files_Ok in H. destruct H as (-> & -> & ->).
  split.
  - unfold folder_map, scanned_files.
    destruct (fs root_path) as [| | |entries]; try reflexivity.
    destruct (filter is_dir entries) as [|s subdirs] eqn:D.
    + unfold Dict.total. simpl. lia.
    + destruct (folder_map_subdirs (s :: subdirs) []) as [T _].
      * rewrite <- D. apply NoDup_map_filter, distinct_NoDup, W.
      * intros s' _ [].
      * rewrite T. reflexivity.
  - rewrite DictFacts.total_fold_incr.
    change (initial_extension_counts set_iter) with (DictFacts.zeros set_iter []).
    rewrite (DictFacts.zeros_total set_iter [] eq_refl). reflexivity.
Qed.

Lemma C1_witness :
  names_distinct (Examples.fs "/library") = true /\
  fst (count_music_files Examples.ticking_clock Examples.fs MUSIC_EXTENSIONS
                         "/library" init)
  = Ok ([("A", 5); ("B", 0)], 5,
        [(".mp3", 5); (".aac", 0); (".wav", 0); (".flac", 0); (".m4a", 0);
         (".oga", 0); (".ape", 0); (".dsf", 0); (".dff", 0); (".aiff", 0);
         (".aif", 0); (".ogg", 0)]) /\
  5 = Dict.total [("A", 5); ("B", 0)] /\
  5 = Dict.total [(".mp3", 5); (".aac", 0); (".wav", 0); (".flac", 0);
                  (".m4a", 0); (".oga", 0); (".ape", 0); (".dsf", 0);
                  (".dff", 0); (".aiff", 0); (".aif", 0); (".ogg", 0)].
Proof.
  split; [reflexivity|]. split; [vm_compute; reflexivity|].
  apply (C1_total_is_the_sum_of_both_maps
           Examples.ticking_clock Examples.fs MUSIC_EXTENSIONS "/library" init
           _ _ _
           (snd (count_music_files Examples.ticking_clock Examples.fs
                                   MUSIC_EXTENSIONS "/library" init))).
  - reflexivity.
  - vm_compute. reflexivity.
Defined.

(** C10.  When the root has at least one immediate subdirectory and
    [count_music_files] returns, the cumulative count printed in the row
    of the last subdirectory is the Total Count that is returned. *)
Theorem C10_last_cumulative_is_the_total
        (clock : nat -> Q) (fs : string -> path_target) (set_iter : list string)
        (root_path : string) (entries : list node) (st : state)
        (mfc : Dict.t) (total : nat) (ec : Dict.t) (st' : state) :
  fs root_path = Listing entries ->
  existsb is_dir entries = true ->
  count_music_files clock fs set_iter root_path st = (Ok (mfc, total, ec), st') ->
  last_cumulative (output st') = Some total.
Proof.
  intros F D H.
  assert (D' : filter is_dir entries <> []).
  { intros N. apply existsb_filter_nil in N. congruence. }
  destruct (count_music_files_last_row clock fs set_iter root_path entries
              st mfc total ec st' F D' H) as (name & sc & fps & rest & L).
  destruct st' as [n l]. simpl in L. subst l.
  rewrite output_cons_print. unfold last_cumulative.
  now rewrite fold_left_app.
Qed.

Lemma C10_witness :
  Examples.fs "/library" = Listing Examples.library_entries /\
  existsb is_dir Examples.library_entries = true /\
  fst (count_music_files Examples.ticking_clock Examples.fs MUSIC_EXTENSIONS
                         "/library" init)
  = Ok ([("A", 5); ("B", 0)], 5,
        [(".mp3", 5); (".aac", 0); (".wav", 0); (".flac", 0); (".m4a", 0);
         (".oga", 0); (".ape", 0); (".dsf", 0); (".dff", 0); (".aiff", 0);
         (".aif", 0); (".ogg", 0)]) /\
  last_cumulative
    (output (snd (count_music_files Examples.ticking_clock Examples.fs
                                    MUSIC_EXTENSIONS "/library" init)))
  = Some 5.
Proof.
  split; [reflexivity|]. split; [reflexivity|].
  split; [vm_compute; reflexivity|].
  apply (C10_last_cumulative_is_the_total
           Examples.ticking_clock Examples.fs MUSIC_EXTENSIONS "/library"
           Examples.library_entries init
           [("A", 5); ("B", 0)] 5
           [(".mp3", 5); (".aac", 0); (".wav", 0); (".flac", 0); (".m4a", 0);
            (".oga", 0); (".ape", 0); (".dsf", 0); (".dff", 0); (".aiff", 0);
            (".aif", 0); (".ogg", 0)]).
  - reflexivity.
  - reflexivity.
  - vm_compute. reflexivity.
Defined.

(** C5.  On a root without immediate subdirectories [count_music_files]
    lists the root (twice), counts the regular files directly in it that
    belong to the catalog, prints one line and returns: the Folder Count
    Map has the single key [basename(root_path)], its value and the Total
    Count are that number; nothing is walked and the clock is not read. *)
Theorem C5_flat_root
        (clock : nat -> Q) (fs : string -> path_target) (set_iter : list string)
        (root_path : string) (entries : list node) (st : state) :
  fs root_path = Listing entries ->
  existsb is_dir entries = false ->
  count_music_files clock fs set_iter root_path st
  = (Ok ([(Str.basename root_path, direct_count entries)],
         direct_count entries,
         fold_left Dict.incr
                   (music_exts (map node_name (filter is_file entries)))
                   (initial_extension_counts set_iter)),
     mkState (ticks st)
             (Print (LFound (direct_count entries) (Str.basename root_path))
                    :: Scandir root_path :: Scandir root_path :: log st)).
Proof.
  intros F D. apply existsb_filter_nil in D.
  unfold count_music_files, try_except, scandir, bind, print, emit, ret, raise.
  simpl. rewrite F, D, scan_root_entries. simpl.
  unfold direct_count.
  rewrite length_music_exts, filter_music_files, length_map. reflexivity.
Qed.

Lemma C5_witness :
  Examples.fs "/flat" = Listing Examples.flat_entries /\
  existsb is_dir Examples.flat_entries = false /\
  count_music_files Examples.coarse_clock Examples.fs MUSIC_EXTENSIONS
                    "/flat" init
  = (Ok ([("flat", 3)], 3,
         [(".mp3", 1); (".aac", 0); (".wav", 0); (".flac", 1); (".m4a", 0);
          (".oga", 0); (".ape", 0); (".dsf", 0); (".dff", 0); (".aiff", 0);
          (".aif", 0); (".ogg", 1)]),
     mkState 0 [Print (LFound 3 "flat"); Scandir "/flat"; Scandir "/flat"]).
Proof.
  split; [reflexivity|]. split; [reflexivity|].
  exact (C5_flat_root Examples.coarse_clock Examples.fs MUSIC_EXTENSIONS
                      "/flat" Examples.flat_entries init eq_refl eq_refl).
Defined.

(** C6.  Whenever [count_music_files] returns: the keys of the Extension
    Count Map are the catalog; every catalog extension starts at zero and
    ends at the number of scanned files with that extension, zero when
    there is none; the Total Count is the number of scanned files whose
    extension is in the catalog, so that other files are not counted; and
    every key of the Folder Count Map is the root's basename or the name of
    an immediate subdirectory. *)
Theorem C6_keys_are_the_catalog
        (clock : nat -> Q) (fs : string -> path_target) (set_iter : list string)
        (root_path : string) (st : state)
        (mfc : Dict.t) (total : nat) (ec : Dict.t) (st' : state) :
  Permutation set_iter MUSIC_EXTENSIONS ->
  count_music_files clock fs set_iter root_path st = (Ok (mfc, total, ec), st') ->
  Permutation (Dict.keys ec) MUSIC_EXTENSIONS /\
  (forall k, In k MUSIC_EXTENSIONS ->
             Dict.get (initial_extension_counts set_iter) k = Some 0 /\
             Dict.get ec k
             = Some (count_occ string_dec
                               (map file_ext (scanned_files (fs root_path))) k)) /\
  total = List.length (filter is_music (scanned_files (fs root_path))) /\
  (forall k, In k (Dict.keys mfc) ->
             k = Str.basename root_path \/
             In k (top_level_names (fs root_path))).
Proof.
  intros P H. apply count_music_files_Ok in H. destruct H as (-> & -> & ->).
  assert (K : Dict.keys (initial_extension_counts set_iter) = set_iter).
  { change (initial_extension_counts set_iter) with (DictFacts.zeros set_iter []).
    apply (DictFacts.zeros_keys set_iter []). simpl.
    apply (Permutation_NoDup (Permutation_sym P)), catalog_NoDup. }
  assert (Z : forall k, In k MUSIC_EXTENSIONS ->
                        Dict.get (initial_extension_counts set_iter) k = Some 0).
  { intros k Hk.
    change (initial_extension_counts set_iter) with (DictFacts.zeros set_iter []).
    apply DictFacts.zeros_get; [discriminate|]. simpl.
    apply (Permutation_in _ (Permutation_sym P)), Hk. }
  repeat split.
  - rewrite DictFacts.keys_fold_incr; [now rewrite K|].
    intros x Hx. rewrite K.
    apply (Permutation_in _ (Permutation_sym P)).
    now apply (music_exts_catalog _ _ Hx).
  - now apply Z.
  - rewrite (DictFacts.get_fold_incr _ _ k 0 (Z k H)).
    now rewrite count_occ_music_exts.
  - apply length_music_exts.
  - intros k. unfold folder_map, top_level_names.
    destruct (fs root_path) as [| | |entries]; simpl; try tauto.
    destruct (filter is_dir entries) as [|s subdirs] eqn:D.
    + intros I. simpl in I. destruct I as [I|I]; [|contradiction].
      left. now symmetry.
    + intros I. apply (folder_map_keys (s :: subdirs) [] k) in I.
      destruct I as [I|I]; [destruct I | now right].
Qed.

Lemma C6_witness :
  Permutation (rev MUSIC_EXTENSIONS) MUSIC_EXTENSIONS /\
  fst (count_music_files Examples.ticking_clock Examples.fs
                         (rev MUSIC_EXTENSIONS) "/mixed" init)
  = Ok ([("A", 2); ("B", 2); ("C", 0)], 4,
        [(".ogg", 0); (".aif", 1); (".aiff", 1); (".dff", 0); (".dsf", 0);
         (".ape", 0); (".oga", 0); (".m4a", 0); (".flac", 0); (".wav", 1);
         (".aac", 0); (".mp3", 1)]) /\
  Permutation
    [".ogg"; ".aif"; ".aiff"; ".dff"; ".dsf"; ".ape"; ".oga"; ".m4a"; ".flac";
     ".wav"; ".aac"; ".mp3"] MUSIC_EXTENSIONS.
Proof.
  split; [apply Permutation_sym, Permutation_rev|].
  split; [vm_compute; reflexivity|].
  apply (C6_keys_are_the_catalog
           Examples.ticking_clock Examples.fs (rev MUSIC_EXTENSIONS) "/mixed" init
           [("A", 2); ("B", 2); ("C", 0)] 4
           [(".ogg", 0); (".aif", 1); (".aiff", 1); (".dff", 0); (".dsf", 0);
            (".ape", 0); (".oga", 0); (".m4a", 0); (".flac", 0); (".wav", 1);
            (".aac", 0); (".mp3", 1)]
           (snd (count_music_files Examples.ticking_clock Examples.fs
                                   (rev MUSIC_EXTENSIONS) "/mixed" init))).
  - apply Permutation_sym, Permutation_rev.
  - vm_compute. reflexivity.
Defined.

(** The catalog as the specification lists it. *)
Lemma C2_counterexample : List.length MUSIC_EXTENSIONS <> 14.
Proof. simpl. lia. Qed.

(** C2 (amended).  The catalog has twelve entries, without duplicates: it
    is the set .mp3 .aac .wav .flac .m4a .oga .ape .dsf .dff .aiff .aif
    .ogg.  Its entries are lower-case and a name is classified by its
    lower-cased extension, so the comparison does not depend on case. *)
Theorem C2_catalog_has_twelve_entries :
  List.length MUSIC_EXTENSIONS = 12 /\
  NoDup MUSIC_EXTENSIONS /\
  (forall e,
      In e MUSIC_EXTENSIONS <->
      e = ".mp3" \/ e = ".aac" \/ e = ".wav" \/ e = ".flac" \/ e = ".m4a" \/
      e = ".oga" \/ e = ".ape" \/ e = ".dsf" \/ e = ".dff" \/ e = ".aiff" \/
      e = ".aif" \/ e = ".ogg") /\
  Forall (fun e => Str.lower e = e) MUSIC_EXTENSIONS /\
  (forall name, is_music (Str.lower name) = is_music name).
Proof.
  split; [reflexivity|]. split; [exact catalog_NoDup|]. split; [|split].
  - intros e. unfold MUSIC_EXTENSIONS. simpl. split; intros H.
    + repeat (destruct H as [H|H]; [symmetry in H; tauto|]). contradiction.
    + repeat (destruct H as [H|H]; [symmetry in H; tauto|]).
      symmetry in H. tauto.
  - repeat constructor.
  - exact is_music_lower.
Qed.

(** The words of claim C4: the substring after the last [.], lower-cased;
    and the same with the dot kept, as the keys of the catalog have it. *)
Definition ext_after_last_dot (name : string) : string :=
  Str.lower (Str.drop (Z.to_nat (Str.rfind "." name + 1)) name).

Definition ext_from_last_dot (name : string) : string :=
  Str.lower (Str.drop (Z.to_nat (Str.rfind "." name)) name).

(** A file named [.mp3]: under either reading of the claim its extension
    is in the catalog (with the dot) or is [mp3]; the code gives it no
    extension and does not count it. *)
Lemma C4_counterexample :
  file_ext ".mp3" = "" /\
  ext_after_last_dot ".mp3" = "mp3" /\
  ext_from_last_dot ".mp3" = ".mp3" /\
  Str.mem (ext_from_last_dot ".mp3") MUSIC_EXTENSIONS = true /\
  is_music ".mp3" = false.
Proof. repeat split. Qed.

(** C4 (amended).  The extension used for classification is the suffix of
    [pathlib], lower-cased: for a name [stem.ext] with a non-empty stem and
    a non-empty, dot-free [ext] it is [.ext] lower-cased, the dot included;
    a name whose last dot is its first or its last character, or that has
    no dot, has the empty extension.  Names that differ only in case have
    the same extension, and a file of the walk whose extension is in the
    catalog increments that extension's counter (with the subdirectory
    count and the total). *)
Theorem C4_extension_is_the_lowercased_suffix (stem ext : string) :
  stem <> "" -> ext <> "" -> Str.has_char "." ext = false ->
  file_ext (stem ++ "." ++ ext) = "." ++ Str.lower ext /\
  file_ext ("." ++ ext) = "" /\
  file_ext ext = "" /\
  file_ext (stem ++ ".") = "" /\
  (forall name,
      Str.lower name = Str.lower (stem ++ "." ++ ext) ->
      file_ext name = "." ++ Str.lower ext) /\
  (forall clock subdir t0 sc tc ec st acc' st',
      In ("." ++ Str.lower ext) MUSIC_EXTENSIONS ->
      scan_file clock subdir t0 (stem ++ "." ++ ext) (sc, tc, ec) st
      = (Ok acc', st') ->
      acc' = (sc + 1, tc + 1, Dict.incr ec ("." ++ Str.lower ext))).
Proof.
  intros Hs He Hd.
  assert (A : file_ext (stem ++ "." ++ ext) = "." ++ Str.lower ext).
  { unfold file_ext. change ("." ++ ext) with (String "." ext).
    now rewrite StrFacts.suffix_split. }
  split; [exact A|]. split; [|split; [|split; [|split]]].
  - unfold file_ext. change ("." ++ ext) with (String "." ext).
    now rewrite StrFacts.suffix_leading_dot.
  - unfold file_ext. now rewrite StrFacts.suffix_no_dot.
  - unfold file_ext. now rewrite StrFacts.suffix_trailing_dot.
  - intros name H. rewrite <- A. now apply file_ext_case_insensitive.
  - intros clock subdir t0 sc tc ec st [[sc' tc'] ec'] st' I H.
    apply scan_file_Ok in H. destruct H as (-> & -> & ->).
    rewrite music_exts_count.
    + rewrite A. reflexivity.
    + unfold is_music. rewrite A. now apply StrFacts.mem_In.
Qed.

Lemma C4_witness :
  file_ext "Track.MP3" = ".mp3" /\
  file_ext "track.mp3" = ".mp3" /\
  (1, 1, [(".mp3", 1); (".aac", 0); (".wav", 0); (".flac", 0); (".m4a", 0);
          (".oga", 0); (".ape", 0); (".dsf", 0); (".dff", 0); (".aiff", 0);
          (".aif", 0); (".ogg", 0)])
  = (0 + 1, 0 + 1, Dict.incr (initial_extension_counts MUSIC_EXTENSIONS) ".mp3").
Proof.
  destruct (C4_extension_is_the_lowercased_suffix "Track" "MP3")
    as (A & _ & _ & _ & B & C); try discriminate; try reflexivity.
  split; [exact A|]. split; [apply B; reflexivity|].
  apply (C Examples.ticking_clock "A" 0%Q 0 0
           (initial_extension_counts MUSIC_EXTENSIONS) init _ init).
  - simpl. tauto.
  - reflexivity.
Defined.

Lemma StronglySorted_weaken {A} (R R' : A -> A -> Prop) (l : list A) :
  (forall x y, R x y -> R' x y) -> StronglySorted R l -> StronglySorted R' l.
Proof.
  intros W. induction 1 as [|x l S IH F]; constructor; [assumption|].
  eapply Forall_impl; [|exact F]. intros y. apply W.
Qed.

(** The names in the rows of a table. *)
Definition row_names (lines : list line) : list string :=
  flat_map (fun l => match l with
                     | LTableRow _ name _ _ => [name]
                     | _ => []
                     end) lines.

(** C7.  The by-extension table prints two groups of rows, in this order:
    the extensions with a non-zero count, each once, in descending order of
    count; then the extensions with a zero count, each once, in
    alphabetical order.  For the counts .mp3: 10, .flac: 3, others 0, the
    rows are .mp3, .flac, then the ten others alphabetically. *)
Theorem C7_table2_order :
  (forall (extension_counts : Dict.t) (total_count : nat) (st : state),
      exists found absent st',
        print_table2 extension_counts total_count st = (Ok tt, st') /\
        output st'
        = (output st ++ map (count_row ByExtension total_count) found
                  ++ map zero_row absent)%list /\
        Permutation found
                    (filter (fun item => negb (snd item =? 0))
                            (Dict.items extension_counts)) /\
        StronglySorted (fun x y => snd y <= snd x) found /\
        Permutation absent
                    (Dict.keys (filter (fun item => snd item =? 0)
                                       (Dict.items extension_counts))) /\
        StronglySorted (fun a b => String.leb a b = true) absent) /\
  row_names
    (output
       (snd (print_table2
               [(".wav", 0); (".flac", 3); (".ogg", 0); (".aac", 0);
                (".mp3", 10); (".m4a", 0); (".oga", 0); (".ape", 0);
                (".dsf", 0); (".dff", 0); (".aiff", 0); (".aif", 0)]
               13 init)))
  = [".mp3"; ".flac"; ".aac"; ".aif"; ".aiff"; ".ape"; ".dff"; ".dsf";
     ".m4a"; ".oga"; ".ogg"; ".wav"].
Proof.
  split; [|vm_compute; reflexivity].
  intros ec total st.
  exists (sorted_by_count_desc
            (filter (fun '(_, count) => 0 <? count) (Dict.items ec))),
         (sorted_strings
            (Dict.keys (filter (fun '(_, count) => count =? 0) (Dict.items ec)))),
         (printed (table2_rows ec total) st).
  split; [apply print_table2_eq|]. split; [apply output_printed|].
  split; [|split; [|split]].
  - unfold sorted_by_count_desc. rewrite sorted_with_perm.
    erewrite filter_ext; [reflexivity|].
    intros [ext count]. simpl. now destruct count.
  - eapply StronglySorted_weaken;
      [|apply (sorted_with_sorted _ count_desc_total count_desc_trans)].
    intros x y H. now apply Nat.leb_le.
  - unfold sorted_strings. rewrite sorted_with_perm.
    erewrite filter_ext; [reflexivity|]. now intros [ext count].
  - apply (sorted_with_sorted _ String.leb_total string_leb_trans).
Qed.


(** Only the rows of the two tables carry a percentage. *)
Lemma percentages_report_lines folder_counts total_count extension_counts elapsed :
  percentages (report_lines folder_counts total_count extension_counts elapsed)
  = (percentages (table1_rows folder_counts total_count)
     ++ percentages (table2_rows extension_counts total_count))%list.
Proof.
  unfold percentages, report_lines.
  cbn [app flat_map]. rewrite flat_map_app.
  cbn [app flat_map]. rewrite flat_map_app.
  cbn [app flat_map]. now rewrite app_nil_r.
Qed.

Lemma length_percentages_count_rows (t : table) (total : nat)
      (items : list (string * nat)) :
  List.length (percentages (map (count_row t total) items)) = List.length items.
Proof. induction items as [|x items IH]; simpl; congruence. Qed.

Lemma length_percentages_zero_rows (exts : list string) :
  List.length (percentages (map zero_row exts)) = List.length exts.
Proof. induction exts as [|x exts IH]; simpl; congruence. Qed.

(** Every entry of a dictionary is in exactly one of the two groups. *)
Lemma length_zero_and_non_zero (d : Dict.t) :
  List.length (filter (fun '(_, count) => 0 <? count) d)
  + List.length (filter (fun '(_, count) => count =? 0) d)
  = List.length d.
Proof.
  induction d as [|[ext count] r IH]; [reflexivity|].
  simpl. destruct count; simpl; lia.
Qed.

(** The tables have one row per entry of their dictionary. *)
Lemma length_table1_rows folder_counts total_count :
  List.length (table1_rows folder_counts total_count) = List.length folder_counts.
Proof.
  unfold table1_rows, sorted_by_count_desc, Dict.items.
  now rewrite length_map, (Permutation_length (sorted_with_perm _ _)).
Qed.

Lemma length_table2_rows extension_counts total_count :
  List.length (table2_rows extension_counts total_count)
  = List.length extension_counts.
Proof.
  unfold table2_rows, sorted_by_count_desc, sorted_strings, Dict.keys, Dict.items.
  rewrite length_app, !length_map.
  rewrite !(Permutation_length (sorted_with_perm _ _)), length_map.
  apply length_zero_and_non_zero.
Qed.

(** C8.  With a Total Count of zero the Reporter returns without raising,
    and every percentage it prints, one per row of either table, is the
    text 0.00 right-aligned before the percent sign. *)
Theorem C8_zero_total_prints_zero_percent
        (folder_counts extension_counts : Dict.t) (elapsed : Q) (st : state) :
  exists lines st',
    report folder_counts 0 extension_counts elapsed st = (Ok tt, st') /\
    output st' = (output st ++ lines)%list /\
    Forall (eq "     0.00%") (percentages lines) /\
    List.length (percentages lines)
    = List.length folder_counts + List.length extension_counts.
Proof.
  exists (report_lines folder_counts 0 extension_counts elapsed),
         (printed (report_lines folder_counts 0 extension_counts elapsed) st).
  split; [apply report_eq|]. split; [apply output_printed|].
  rewrite percentages_report_lines.
  unfold table1_rows, table2_rows. rewrite percentages_app.
  split.
  - apply Forall_app. split; [apply percentages_count_rows_zero|].
    apply Forall_app. split;
      [apply percentages_count_rows_zero | apply percentages_zero_rows].
  - rewrite !length_app, !length_percentages_count_rows,
      length_percentages_zero_rows.
    unfold sorted_by_count_desc, sorted_strings, Dict.keys, Dict.items.
    rewrite !(Permutation_length (sorted_with_perm _ _)), length_map.
    f_equal. apply length_zero_and_non_zero.
Qed.

(* ================================================================== *)
(** * The progress line and the exit status                             *)
(* ================================================================== *)

Lemma time_time_eq (clock : nat -> Q) (st : state) :
  time_time clock st = (Ok (clock (ticks st)), mkState (S (ticks st)) (log st)).
Proof. reflexivity. Qed.

(** The progress branch (lines 77-80) for a catalog file that brings the
    count of the subdirectory to a multiple of 100: the clock is read, and
    the line shows the count divided by the elapsed time; the division has
    no guard, so an elapsed time of zero raises. *)
Lemma scan_file_progress (clock : nat -> Q) name start_time file sc tc ec st :
  is_music file = true ->
  (sc + 1) mod 100 = 0 ->
  scan_file clock name start_time file (sc, tc, ec) st
  = if Qeq_bool (clock (ticks st) - start_time) 0
    then (Raise ZeroDivisionError, mkState (S (ticks st)) (log st))
    else (Ok (sc + 1, tc + 1, Dict.incr ec (file_ext file)),
          mkState (S (ticks st))
                  (Print (LProgress name (sc + 1)
                                    (Q_of_nat (sc + 1)
                                     / (clock (ticks st) - start_time)))
                         :: log st)).
Proof.
  intros Hm Hc. unfold scan_file. fold (is_music file). rewrite Hm, Hc.
  cbn [Nat.eqb].
  unfold bind, time_time, truediv, print, emit, ret, raise.
  now destruct (Qeq_bool _ 0).
Qed.

(** Between two multiples of 100 nothing is printed and the clock is not
    read. *)
Lemma scan_file_quiet (clock : nat -> Q) name start_time file sc tc ec st :
  is_music file = true ->
  (sc + 1) mod 100 <> 0 ->
  scan_file clock name start_time file (sc, tc, ec) st
  = (Ok (sc + 1, tc + 1, Dict.incr ec (file_ext file)), st).
Proof.
  intros Hm Hc. unfold scan_file. fold (is_music file). rewrite Hm.
  apply Nat.eqb_neq in Hc. now rewrite Hc.
Qed.

(** C3.  A subdirectory with a hundred catalog files and a timer whose
    reading has not changed when the hundredth is counted: the division of
    the progress line raises [ZeroDivisionError]; no progress line and no
    row for the subdirectory is printed, and no result is returned. *)
Theorem C3_progress_division_is_not_guarded :
  count_music_files Examples.coarse_clock Examples.fs MUSIC_EXTENSIONS
                    "/music" init
  = (Raise ZeroDivisionError,
     mkState 2 [ Walk "album"; Print (LScanning "album"); Print (LRule 90);
                 Print LProgressHeader; Print (LScanningTop 1 "/music");
                 Scandir "/music" ]).
Proof. vm_compute. reflexivity. Qed.

Section Exit.
Variable clock : nat -> Q.
Variable fs : string -> path_target.
Variable set_iter : list string.

(** A path that is missing or is not a directory: the error line, exit
    status 1, the directory is not listed, nothing is walked and the
    clock is not read. *)
Lemma run_rejects_non_directory (folder_path : string) :
  fs folder_path = Missing \/ fs folder_path = NotDir ->
  run clock fs set_iter folder_path
  = (1, mkState 0 [Print (LError folder_path); Isdir folder_path]).
Proof.
  intros H. unfold run, main, isdir.
  unfold bind at 1. unfold bind at 1. unfold emit at 1.
  destruct H as [H|H]; rewrite H; reflexivity.
Qed.

(** On a directory, with a clock that never repeats a reading, [main]
    returns and the exit status is 0. *)
Lemma run_directory_exit_zero (folder_path : string) :
  (forall i j, i < j -> ~ (clock j == clock i)%Q) ->
  fs folder_path <> Missing -> fs folder_path <> NotDir ->
  fst (run clock fs set_iter folder_path) = 0.
Proof.
  intros C N1 N2. unfold run, main.
  assert (E : isdir fs folder_path init
              = (Ok true, mkState 0 [Isdir folder_path])).
  { unfold isdir, bind, emit, ret. simpl.
    destruct (fs folder_path); congruence. }
  rewrite (bind_eq _ _ _ _ _ E). cbn [negb].
  rewrite (bind_eq (ret tt) _ _ tt _ eq_refl).
  rewrite (bind_eq _ _ _ _ _ (print_eq _ _)).
  rewrite (bind_eq _ _ _ _ _ (print_eq _ _)).
  rewrite (bind_eq _ _ _ _ _ (print_eq _ _)).
  rewrite (bind_eq _ _ _ _ _ (time_time_eq _ _)).
  match goal with
  | |- context [bind (count_music_files _ _ _ _) _ ?s] =>
      destruct (count_music_files_returns clock fs set_iter C folder_path s
                                          N1 N2)
        as ([[m t] e] & st2 & E2)
  end.
  rewrite (bind_eq _ _ _ _ _ E2).
  rewrite (bind_eq _ _ _ _ _ (time_time_eq _ _)).
  now rewrite report_eq.
Qed.
End Exit.

(** C9.  A valid directory on which the program does not exit with status
    zero: [/music] is a directory, the timer has not advanced when the
    hundredth file is counted, the exception leaves [main], and the exit
    status is 1; the report is not printed. *)
Theorem C9_directory_with_exit_status_one :
  Examples.fs "/music" = Listing [Dir "album" (Examples.tracks 100)] /\
  run Examples.coarse_clock Examples.fs MUSIC_EXTENSIONS "/music"
  = (1,
     mkState 3 [ Walk "album"; Print (LScanning "album"); Print (LRule 90);
                 Print LProgressHeader; Print (LScanningTop 1 "/music");
                 Scandir "/music"; Print (LRule 70);
                 Print (LExtensions
                          [".aac"; ".aif"; ".aiff"; ".ape"; ".dff"; ".dsf";
                           ".flac"; ".m4a"; ".mp3"; ".oga"; ".ogg"; ".wav"]);
                 Print (LSelected "/music"); Isdir "/music" ]).
Proof. split; [reflexivity | vm_compute; reflexivity]. Qed.

(* ================================================================== *)
(** * Further properties of the scanner                                 *)
(* ================================================================== *)

Lemma zeros_values (l : list string) (d : Dict.t) :
  Forall (fun v => v = 0) (Dict.values d) ->
  Forall (fun v => v = 0) (Dict.values (DictFacts.zeros l d)).
Proof.
  unfold DictFacts.zeros.
  revert d; induction l as [|x l IH]; intros d H; simpl; [assumption|].
  apply IH. clear IH.
  induction d as [|[k v] r IHr]; simpl.
  - repeat constructor.
  - unfold Dict.set; fold Dict.set. inversion H; subst.
    destruct (String.eqb x k); simpl; constructor; auto.
Qed.

(** X1.  A root that may not be listed (lines 53-55): the scan prints the
    permission line and returns an empty Folder Count Map, a Total Count
    of zero and the Extension Count Map as it was initialised, every value
    zero; nothing is walked and the clock is not read. *)
Theorem X1_unreadable_root
        (clock : nat -> Q) (fs : string -> path_target) (set_iter : list string)
        (root_path : string) (st : state) :
  fs root_path = Unreadable ->
  count_music_files clock fs set_iter root_path st
  = (Ok ([], 0, initial_extension_counts set_iter),
     mkState (ticks st) (Print (LDenied root_path) :: Scandir root_path :: log st))
  /\ Forall (fun v => v = 0) (Dict.values (initial_extension_counts set_iter)).
Proof.
  intros F. split.
  - unfold count_music_files, try_except, scandir, bind, print, emit, ret, raise.
    simpl. rewrite F. reflexivity.
  - apply (zeros_values set_iter []). constructor.
Qed.

Lemma X1_witness :
  Examples.fs "/locked" = Unreadable /\
  count_music_files Examples.coarse_clock Examples.fs MUSIC_EXTENSIONS
                    "/locked" init
  = (Ok ([], 0,
         [(".mp3", 0); (".aac", 0); (".wav", 0); (".flac", 0); (".m4a", 0);
          (".oga", 0); (".ape", 0); (".dsf", 0); (".dff", 0); (".aiff", 0);
          (".aif", 0); (".ogg", 0)]),
     mkState 0 [Print (LDenied "/locked"); Scandir "/locked"]).
Proof.
  split; [reflexivity|].
  exact (proj1 (X1_unreadable_root Examples.coarse_clock Examples.fs
                                   MUSIC_EXTENSIONS "/locked" init eq_refl)).
Defined.

(** X2.  The handler of [count_music_files] catches [PermissionError]
    only: called on a path that is missing or is not a directory, the
    error of [os.scandir] leaves the function, and nothing is printed. *)
Theorem X2_other_errors_propagate
        (clock : nat -> Q) (fs : string -> path_target) (set_iter : list string)
        (root_path : string) (st : state) :
  fs root_path = Missing \/ fs root_path = NotDir ->
  count_music_files clock fs set_iter root_path st
  = (Raise (match fs root_path with
            | NotDir => NotADirectoryError
            | _ => FileNotFoundError
            end),
     mkState (ticks st) (Scandir root_path :: log st)).
Proof.
  intros F.
  unfold count_music_files, try_except, scandir, bind, print, emit, ret, raise.
  simpl. destruct F as [F|F]; rewrite F; reflexivity.
Qed.

Lemma X2_witness :
  Examples.fs "/song.mp3" = NotDir /\
  count_music_files Examples.coarse_clock Examples.fs MUSIC_EXTENSIONS
                    "/song.mp3" init
  = (Raise NotADirectoryError, mkState 0 [Scandir "/song.mp3"]).
Proof.
  split; [reflexivity|].
  exact (X2_other_errors_propagate Examples.coarse_clock Examples.fs
           MUSIC_EXTENSIONS "/song.mp3" init (or_intror eq_refl)).
Defined.

(** X3.  As soon as the root has one immediate subdirectory, the files of
    the root itself play no part (lines 38-62): two roots with the same
    subdirectories give the same results, the same output and the same
    exceptions, whatever files lie beside the subdirectories. *)
Theorem X3_root_files_ignored_beside_subdirectories
        (clock : nat -> Q) (fs1 fs2 : string -> path_target)
        (set_iter : list string) (root_path : string)
        (entries1 entries2 : list node) (st : state) :
  fs1 root_path = Listing entries1 ->
  fs2 root_path = Listing entries2 ->
  filter is_dir entries1 = filter is_dir entries2 ->
  existsb is_dir entries1 = true ->
  count_music_files clock fs1 set_iter root_path st
  = count_music_files clock fs2 set_iter root_path st.
Proof.
  intros F1 F2 E D.
  assert (N : filter is_dir entries1 <> []).
  { intros N. apply existsb_filter_nil in N. congruence. }
  unfold count_music_files, try_except, scandir, bind, print, emit, ret, raise.
  cbn [ticks log]. rewrite F1, F2, <- E.
  destruct (filter is_dir entries1) as [|s subdirs]; [congruence|].
  reflexivity.
Qed.

(** The same file system with the root's own files taken away. *)
Definition without_root_files (fs : string -> path_target) (path : string)
  : path_target :=
  match fs path with
  | Listing entries => Listing (filter is_dir entries)
  | other => other
  end.

Lemma X3_witness :
  Examples.fs "/mixed" = Listing Examples.mixed_entries /\
  In (File "loose.mp3") Examples.mixed_entries /\
  count_music_files Examples.ticking_clock Examples.fs MUSIC_EXTENSIONS
                    "/mixed" init
  = count_music_files Examples.ticking_clock (without_root_files Examples.fs)
                      MUSIC_EXTENSIONS "/mixed" init.
Proof.
  split; [reflexivity|]. split; [simpl; tauto|].
  apply (X3_root_files_ignored_beside_subdirectories
           Examples.ticking_clock Examples.fs (without_root_files Examples.fs)
           MUSIC_EXTENSIONS "/mixed"
           Examples.mixed_entries (filter is_dir Examples.mixed_entries) init);
    reflexivity.
Defined.

(** What the walk of a directory finds below one of its entries: a real
    subdirectory is walked in turn, a link to a directory is not. *)
Definition below_total (n : node) : nat :=
  match n with
  | Dir _ _ => subdir_total n
  | File _ | Other _ | DirLink _ _ => 0
  end.

Lemma concat_flat_map {A B} (f : A -> list (list B)) (l : list A) :
  List.concat (flat_map f l) = flat_map (fun x => List.concat (f x)) l.
Proof.
  induction l as [|x l IH]; simpl; [reflexivity|].
  now rewrite concat_app, IH.
Qed.

Lemma length_music_exts_flat_map (cs : list node) :
  List.length (music_exts (flat_map (fun c => List.concat (walk_below c)) cs))
  = list_sum (map below_total cs).
Proof.
  induction cs as [|c cs IH]; [reflexivity|].
  cbn [flat_map map list_sum fold_right].
  rewrite music_exts_app, length_app, IH. f_equal.
  destruct c; reflexivity.
Qed.

(** The count of a directory is the count of its own files plus the
    counts of its real subdirectories. *)
Lemma subdir_total_unfold (cs : list node) :
  List.length (music_exts (List.concat (nondirs cs :: flat_map walk_below cs)))
  = List.length (filter is_music (nondirs cs)) + list_sum (map below_total cs).
Proof.
  cbn [List.concat]. rewrite music_exts_app, length_app, concat_flat_map.
  now rewrite length_music_exts_flat_map, length_music_exts.
Qed.

Lemma get_record_other (subdirs : list node) :
  forall d k,
    ~ In k (map node_name subdirs) ->
    Dict.get (fold_left record_subdir subdirs d) k = Dict.get d k.
Proof.
  induction subdirs as [|s subdirs IH]; intros d k N; simpl; [reflexivity|].
  rewrite IH by (intros I; apply N; now right).
  unfold record_subdir. apply DictFacts.get_set_other.
  intros E. apply N. now left.
Qed.

Lemma get_record_subdir (subdirs : list node) :
  forall d s,
    NoDup (map node_name subdirs) -> In s subdirs ->
    Dict.get (fold_left record_subdir subdirs d) (node_name s)
    = Some (subdir_total s).
Proof.
  induction subdirs as [|s0 subdirs IH]; intros d s N I; simpl; [destruct I|].
  inversion N as [|? ? N0 N1]; subst.
  destruct I as [<-|I].
  - rewrite get_record_other by assumption.
    unfold record_subdir. apply DictFacts.get_set_same.
  - now apply IH.
Qed.

(** X4.  The Folder Count Map of a returning scan gives every immediate
    subdirectory the number of catalog files found anywhere beneath it:
    the files of the directory itself plus, recursively, what lies beneath
    each of its real subdirectories; a link to a directory met during the
    walk is not entered, while a top-level link is walked like a
    directory. *)
Theorem X4_folder_counts_are_recursive
        (clock : nat -> Q) (fs : string -> path_target) (set_iter : list string)
        (root_path : string) (entries : list node) (st : state)
        (mfc : Dict.t) (total : nat) (ec : Dict.t) (st' : state) :
  fs root_path = Listing entries ->
  distinct (map node_name entries) = true ->
  count_music_files clock fs set_iter root_path st = (Ok (mfc, total, ec), st') ->
  (forall s, In s entries -> is_dir s = true ->
             Dict.get mfc (node_name s) = Some (subdir_total s)) /\
  (forall name cs,
      subdir_total (Dir name cs)
      = List.length (filter is_music (nondirs cs)) + list_sum (map below_total cs)
      /\ subdir_total (DirLink name cs) = subdir_total (Dir name cs)).
Proof.
  intros F W H. split.
  - intros s I D. apply count_music_files_Ok in H. destruct H as (-> & _ & _).
    unfold folder_map. rewrite F.
    assert (I' : In s (filter is_dir entries)) by (apply filter_In; auto).
    destruct (filter is_dir entries) as [|s0 subdirs] eqn:E; [destruct I'|].
    apply get_record_subdir; [|assumption].
    rewrite <- E. apply NoDup_map_filter, distinct_NoDup, W.
  - intros name cs. split; [|reflexivity].
    unfold subdir_total, subdir_files.
    change (os_walk (Dir name cs)) with (nondirs cs :: flat_map walk_below cs).
    apply subdir_total_unfold.
Qed.

Lemma X4_witness :
  Examples.fs "/mixed" = Listing Examples.mixed_entries /\
  fst (count_music_files Examples.ticking_clock Examples.fs MUSIC_EXTENSIONS
                         "/mixed" init)
  = Ok ([("A", 2); ("B", 2); ("C", 0)], 4,
        [(".mp3", 1); (".aac", 0); (".wav", 1); (".flac", 0); (".m4a", 0);
         (".oga", 0); (".ape", 0); (".dsf", 0); (".dff", 0); (".aiff", 1);
         (".aif", 1); (".ogg", 0)]) /\
  subdir_total (Dir "A" [ File "1.Mp3";
                          Dir "deep" [ File "2.wav";
                                       DirLink "elsewhere" [ File "no.mp3" ] ] ])
  = 1 + (0 + (1 + (0 + (0 + 0)) + 0)).
Proof.
  split; [reflexivity|]. split; [vm_compute; reflexivity|].
  destruct (X4_folder_counts_are_recursive
              Examples.ticking_clock Examples.fs MUSIC_EXTENSIONS "/mixed"
              Examples.mixed_entries init
              [("A", 2); ("B", 2); ("C", 0)] 4
              [(".mp3", 1); (".aac", 0); (".wav", 1); (".flac", 0); (".m4a", 0);
               (".oga", 0); (".ape", 0); (".dsf", 0); (".dff", 0); (".aiff", 1);
               (".aif", 1); (".ogg", 0)]
              (snd (count_music_files Examples.ticking_clock Examples.fs
                                      MUSIC_EXTENSIONS "/mixed" init))
              eq_refl eq_refl) as [_ R].
  - vm_compute. reflexivity.
  - destruct (R "A" [ File "1.Mp3";
                      Dir "deep" [ File "2.wav";
                                   DirLink "elsewhere" [ File "no.mp3" ] ] ])
      as [R1 _].
    rewrite R1. reflexivity.
Defined.

(** X5.  The counts do not depend on timing: two runs on the same file
    system that both return give the same three results, whatever the two
    clocks read and whatever was printed before. *)
Theorem X5_results_do_not_depend_on_the_clock
        (clock1 clock2 : nat -> Q) (fs : string -> path_target)
        (set_iter : list string) (root_path : string) (st1 st2 : state)
        (results1 results2 : scan_results) (st1' st2' : state) :
  count_music_files clock1 fs set_iter root_path st1 = (Ok results1, st1') ->
  count_music_files clock2 fs set_iter root_path st2 = (Ok results2, st2') ->
  results1 = results2.
Proof.
  destruct results1 as [[m1 t1] e1], results2 as [[m2 t2] e2]. intros H1 H2.
  apply count_music_files_Ok in H1, H2.
  destruct H1 as (-> & -> & ->), H2 as (-> & -> & ->). reflexivity.
Qed.

Lemma X5_witness :
  fst (count_music_files Examples.ticking_clock Examples.fs MUSIC_EXTENSIONS
                         "/library" init)
  = Ok ([("A", 5); ("B", 0)], 5,
        [(".mp3", 5); (".aac", 0); (".wav", 0); (".flac", 0); (".m4a", 0);
         (".oga", 0); (".ape", 0); (".dsf", 0); (".dff", 0); (".aiff", 0);
         (".aif", 0); (".ogg", 0)]) /\
  exists results2,
    fst (count_music_files Examples.coarse_clock Examples.fs MUSIC_EXTENSIONS
                           "/library" (mkState 7 [Print (LRule 70)]))
    = Ok results2 /\
    ([("A", 5); ("B", 0)], 5,
     [(".mp3", 5); (".aac", 0); (".wav", 0); (".flac", 0); (".m4a", 0);
      (".oga", 0); (".ape", 0); (".dsf", 0); (".dff", 0); (".aiff", 0);
      (".aif", 0); (".ogg", 0)]) = results2.
Proof.
  split; [vm_compute; reflexivity|].
  eexists. split; [vm_compute; reflexivity|].
  apply (X5_results_do_not_depend_on_the_clock
           Examples.ticking_clock Examples.coarse_clock Examples.fs
           MUSIC_EXTENSIONS "/library" init (mkState 7 [Print (LRule 70)])
           _ _
           (snd (count_music_files Examples.ticking_clock Examples.fs
                                   MUSIC_EXTENSIONS "/library" init))
           (snd (count_music_files Examples.coarse_clock Examples.fs
                                   MUSIC_EXTENSIONS "/library"
                                   (mkState 7 [Print (LRule 70)])))).
  - vm_compute. reflexivity.
  - vm_compute. reflexivity.
Defined.

(* ================================================================== *)
(** * When the progress branch is reached                               *)
(* ================================================================== *)

(** The speed shown in the row of a subdirectory whose scan started at
    reading [t] and ended at the next one (line 83). *)
Definition row_speed (clock : nat -> Q) (t : nat) (subdir_count : nat) : Q :=
  let elapsed := (clock (S t) - clock t)%Q in
  if truthy elapsed then (Q_of_nat subdir_count / elapsed)%Q else 0%Q.

Lemma counts_eq (a a' b b' : nat) (c : Dict.t) (s : state) :
  a = a' -> b = b' -> (Ok (a, b, c), s) = (Ok (a', b', c), s).
Proof. now intros -> ->. Qed.

Ltac eq_counts := apply counts_eq; lia.

Section Quiet.
Variable clock : nat -> Q.

Lemma scan_file_skip name t0 file acc st :
  is_music file = false -> scan_file clock name t0 file acc st = (Ok acc, st).
Proof.
  intros H. destruct acc as [[sc tc] ec]. unfold scan_file.
  fold (is_music file). now rewrite H.
Qed.

(** Below a count of 100 the loop over the files neither prints nor reads
    the clock. *)
Lemma scan_files_quiet name t0 files :
  forall sc tc ec st,
    sc + List.length (music_exts files) < 100 ->
    foldM (scan_file clock name t0) files (sc, tc, ec) st
    = (Ok (sc + List.length (music_exts files),
           tc + List.length (music_exts files),
           fold_left Dict.incr (music_exts files) ec), st).
Proof.
  induction files as [|file files IH]; intros sc tc ec st B.
  - simpl. unfold ret. eq_counts.
  - cbn [foldM]. destruct (is_music file) eqn:E.
    + rewrite (music_exts_count _ _ E) in *. cbn [List.length] in B.
      rewrite (bind_eq _ _ _ _ _
                 (scan_file_quiet clock name t0 file sc tc ec st E
                    ltac:(rewrite Nat.mod_small; lia))).
      rewrite IH by lia. cbn [List.length fold_left].
      eq_counts.
    + rewrite (music_exts_skip _ _ E) in *.
      rewrite (bind_eq _ _ _ _ _ (scan_file_skip name t0 file _ st E)).
      now apply IH.
Qed.

Lemma scan_walk_quiet name t0 (walk : list (list string)) :
  forall sc tc ec st,
    sc + List.length (music_exts (List.concat walk)) < 100 ->
    foldM (fun files acc => foldM (scan_file clock name t0) files acc)
          walk (sc, tc, ec) st
    = (Ok (sc + List.length (music_exts (List.concat walk)),
           tc + List.length (music_exts (List.concat walk)),
           fold_left Dict.incr (music_exts (List.concat walk)) ec), st).
Proof.
  induction walk as [|files walk IH]; intros sc tc ec st B.
  - simpl. unfold ret. eq_counts.
  - cbn [foldM List.concat] in *.
    rewrite music_exts_app, length_app in *.
    rewrite (bind_eq _ _ _ _ _ (scan_files_quiet name t0 files sc tc ec st
                                  ltac:(lia))).
    rewrite IH by lia. rewrite fold_left_app.
    eq_counts.
Qed.

(** A subdirectory with fewer than 100 catalog files: the scan reads the
    clock twice, prints the two lines of the subdirectory and returns,
    whatever the clock reads. *)
Lemma scan_subdir_quiet subdir mfc tc cc ec st :
  subdir_total subdir < 100 ->
  scan_subdir clock subdir (mfc, tc, cc, ec) st
  = (Ok (record_subdir mfc subdir,
         tc + subdir_total subdir,
         cc + subdir_total subdir,
         fold_left Dict.incr (music_exts (subdir_files subdir)) ec),
     mkState (S (S (ticks st)))
             (Print (LSubdirRow (node_name subdir) (subdir_total subdir)
                                (cc + subdir_total subdir)
                                (row_speed clock (ticks st)
                                           (subdir_total subdir)))
                    :: Walk (node_name subdir)
                    :: Print (LScanning (node_name subdir)) :: log st)).
Proof.
  intros B. unfold scan_subdir.
  rewrite (bind_eq _ _ _ _ _ (print_eq _ _)).
  rewrite (bind_eq _ _ _ _ _ (time_time_eq _ _)).
  rewrite (bind_eq (emit _) _ _ tt _ eq_refl).
  rewrite (bind_eq _ _ _ _ _
             (scan_walk_quiet _ _ (os_walk subdir) 0 tc ec _ B)).
  rewrite (bind_eq _ _ _ _ _ (time_time_eq _ _)).
  cbn [ticks log printed map rev app].
  unfold row_speed, truthy, truediv, bind, print, emit, ret, raise.
  fold (subdir_files subdir). fold (subdir_total subdir).
  destruct (Qeq_bool _ 0); reflexivity.
Qed.

Lemma scan_subdirs_quiet (subdirs : list node) :
  forall acc st,
    forallb (fun s => subdir_total s <? 100) subdirs = true ->
    exists acc' st',
      foldM (scan_subdir clock) subdirs acc st = (Ok acc', st') /\
      ticks st' = ticks st + 2 * List.length subdirs.
Proof.
  induction subdirs as [|s subdirs IH]; intros acc st B.
  - exists acc, st. split; [reflexivity | simpl; lia].
  - cbn [forallb] in B. apply andb_true_iff in B. destruct B as [B1 B2].
    apply Nat.ltb_lt in B1. destruct acc as [[[mfc tc] cc] ec].
    cbn [foldM]. rewrite (bind_eq _ _ _ _ _ (scan_subdir_quiet s _ _ _ _ st B1)).
    destruct (IH (record_subdir mfc s, tc + subdir_total s, cc + subdir_total s,
                  fold_left Dict.incr (music_exts (subdir_files s)) ec)
                 (mkState (S (S (ticks st)))
                    (Print (LSubdirRow (node_name s) (subdir_total s)
                              (cc + subdir_total s)
                              (row_speed clock (ticks st) (subdir_total s)))
                       :: Walk (node_name s)
                       :: Print (LScanning (node_name s)) :: log st)) B2)
      as (acc' & st' & E & T).
    exists acc', st'. split; [exact E|]. rewrite T. simpl. lia.
Qed.

End Quiet.

(** A root without subdirectories: the scan returns and does not read
    the clock. *)
Lemma flat_root_returns
      (clock : nat -> Q) (fs : string -> path_target) (set_iter : list string)
      (root_path : string) (entries : list node) (st : state) :
  fs root_path = Listing entries ->
  filter is_dir entries = [] ->
  exists results l,
    count_music_files clock fs set_iter root_path st
    = (Ok results, mkState (ticks st) l).
Proof.
  intros F D.
  unfold count_music_files, try_except, scandir, bind, print, emit, ret, raise.
  simpl. rewrite F, D, scan_root_entries. simpl. eauto.
Qed.

(** X6.  When every immediate subdirectory holds fewer than 100 catalog
    files the scan returns whatever the clock reads, a clock that stands
    still included: the unguarded division of the progress line is never
    reached, and the clock is read exactly twice per subdirectory. *)
Theorem X6_small_subdirectories_never_raise
        (clock : nat -> Q) (fs : string -> path_target) (set_iter : list string)
        (root_path : string) (entries : list node) (st : state) :
  fs root_path = Listing entries ->
  forallb (fun s => subdir_total s <? 100) (filter is_dir entries) = true ->
  exists results st',
    count_music_files clock fs set_iter root_path st = (Ok results, st') /\
    ticks st' = ticks st + 2 * List.length (filter is_dir entries).
Proof.
  intros F B.
  destruct (filter is_dir entries) as [|s subdirs] eqn:D.
  - destruct (flat_root_returns clock fs set_iter root_path entries st F D)
      as (results & l & E).
    exists results, (mkState (ticks st) l). split; [exact E | simpl; lia].
  - unfold count_music_files, try_except, scandir.
    unfold bind at 1. unfold bind at 1. unfold bind at 1. unfold emit at 1.
    rewrite F. unfold ret at 1. rewrite D. unfold ret at 1.
    rewrite (bind_eq _ _ _ _ _ (print_eq _ _)).
    rewrite (bind_eq _ _ _ _ _ (print_eq _ _)).
    rewrite (bind_eq _ _ _ _ _ (print_eq _ _)).
    match goal with
    | |- context [bind (foldM (scan_subdir clock) ?l ?a) _ ?s] =>
        destruct (scan_subdirs_quiet clock l a s B)
          as ([[[m t] c] e] & st1 & E1 & T1)
    end.
    rewrite (bind_eq _ _ _ _ _ E1). unfold ret.
    do 2 eexists. split; [reflexivity|]. rewrite T1. simpl. lia.
Qed.

(** A clock that stands still. *)
Definition frozen_clock (_ : nat) : Q := 1000%Q.

Lemma X6_witness :
  Examples.fs "/library" = Listing Examples.library_entries /\
  forallb (fun s => subdir_total s <? 100)
          (filter is_dir Examples.library_entries) = true /\
  exists results st',
    count_music_files frozen_clock Examples.fs MUSIC_EXTENSIONS "/library" init
    = (Ok results, st') /\
    ticks st' = ticks init + 2 * List.length (filter is_dir Examples.library_entries).
Proof.
  split; [reflexivity|]. split; [vm_compute; reflexivity|].
  apply (X6_small_subdirectories_never_raise
           frozen_clock Examples.fs MUSIC_EXTENSIONS "/library"
           Examples.library_entries init).
  - reflexivity.
  - vm_compute. reflexivity.
Defined.

Section Frozen.
Variable clock : nat -> Q.

(** Every reading of the clock is the same. *)
Hypothesis clock_frozen : forall i j, (clock i == clock j)%Q.

Lemma frozen_elapsed (i j : nat) : Qeq_bool (clock i - clock j) 0 = true.
Proof. apply Qeq_bool_iff. pose proof (clock_frozen i j). lra. Qed.

(** The file that brings the count to 100 raises. *)
Lemma scan_files_frozen name t0 files :
  forall sc tc ec st,
    sc < 100 ->
    100 <= sc + List.length (music_exts files) ->
    exists st',
      foldM (scan_file clock name (clock t0)) files (sc, tc, ec) st
      = (Raise ZeroDivisionError, st').
Proof.
  induction files as [|file files IH]; intros sc tc ec st S B.
  - simpl in B. lia.
  - cbn [foldM]. destruct (is_music file) eqn:E.
    + rewrite (music_exts_count _ _ E) in B. cbn [List.length] in B.
      destruct (Nat.eq_dec (sc + 1) 100) as [H|H].
      * unfold bind.
        rewrite (scan_file_progress clock name (clock t0) file sc tc ec st E
                   ltac:(now rewrite H)).
        rewrite frozen_elapsed. eauto.
      * rewrite (bind_eq _ _ _ _ _
                   (scan_file_quiet clock name (clock t0) file sc tc ec st E
                      ltac:(rewrite Nat.mod_small; lia))).
        apply IH; lia.
    + rewrite (music_exts_skip _ _ E) in B.
      rewrite (bind_eq _ _ _ _ _ (scan_file_skip clock name (clock t0) file _ st E)).
      now apply IH.
Qed.

Lemma scan_walk_frozen name t0 (walk : list (list string)) :
  forall sc tc ec st,
    sc < 100 ->
    100 <= sc + List.length (music_exts (List.concat walk)) ->
    exists st',
      foldM (fun files acc => foldM (scan_file clock name (clock t0)) files acc)
            walk (sc, tc, ec) st
      = (Raise ZeroDivisionError, st').
Proof.
  induction walk as [|files walk IH]; intros sc tc ec st S B.
  - simpl in B. lia.
  - cbn [foldM List.concat] in *.
    rewrite music_exts_app, length_app in B.
    destruct (Nat.lt_ge_cases (sc + List.length (music_exts files)) 100)
      as [L|L].
    + rewrite (bind_eq _ _ _ _ _
                 (scan_files_quiet clock name (clock t0) files sc tc ec st L)).
      apply IH; lia.
    + destruct (scan_files_frozen name t0 files sc tc ec st S L) as (st' & E).
      unfold bind. rewrite E. eauto.
Qed.

Lemma scan_subdir_frozen subdir acc st :
  100 <= subdir_total subdir ->
  exists st', scan_subdir clock subdir acc st = (Raise ZeroDivisionError, st').
Proof.
  intros B. destruct acc as [[[mfc tc] cc] ec]. unfold scan_subdir.
  rewrite (bind_eq _ _ _ _ _ (print_eq _ _)).
  rewrite (bind_eq _ _ _ _ _ (time_time_eq _ _)).
  rewrite (bind_eq (emit _) _ _ tt _ eq_refl).
  match goal with
  | |- context [bind (foldM _ (os_walk subdir) ?a) _ ?s] =>
      destruct (scan_walk_frozen (node_name subdir) (ticks (printed [LScanning (node_name subdir)] st))
                                 (os_walk subdir) 0 tc ec s ltac:(lia) B)
        as (st' & E)
  end.
  unfold bind at 1. cbn [ticks printed] in E. cbn [ticks printed]. rewrite E.
  eauto.
Qed.

Lemma scan_subdirs_frozen (subdirs : list node) :
  forall acc st,
    existsb (fun s => 100 <=? subdir_total s) subdirs = true ->
    exists st',
      foldM (scan_subdir clock) subdirs acc st = (Raise ZeroDivisionError, st').
Proof.
  induction subdirs as [|s subdirs IH]; intros acc st B; [discriminate|].
  cbn [existsb foldM] in *.
  destruct (100 <=? subdir_total s) eqn:H.
  - apply Nat.leb_le in H.
    destruct (scan_subdir_frozen s acc st H) as (st' & E).
    unfold bind. rewrite E. eauto.
  - apply Nat.leb_gt in H. destruct acc as [[[mfc tc] cc] ec].
    rewrite (bind_eq _ _ _ _ _ (scan_subdir_quiet clock s _ _ _ _ st H)).
    now apply IH.
Qed.

End Frozen.

(** X7.  With a clock that stands still, a root one of whose immediate
    subdirectories holds at least 100 catalog files makes the scan raise
    [ZeroDivisionError]: nothing is returned, whatever the other
    subdirectories hold. *)
Theorem X7_standing_clock_raises_at_one_hundred
        (clock : nat -> Q) (fs : string -> path_target) (set_iter : list string)
        (root_path : string) (entries : list node) (st : state) :
  (forall i j, (clock i == clock j)%Q) ->
  fs root_path = Listing entries ->
  existsb (fun s => 100 <=? subdir_total s) (filter is_dir entries) = true ->
  exists st',
    count_music_files clock fs set_iter root_path st
    = (Raise ZeroDivisionError, st').
Proof.
  intros C F B.
  destruct (filter is_dir entries) as [|s subdirs] eqn:D; [discriminate|].
  unfold count_music_files, try_except, scandir.
  unfold bind at 1. unfold bind at 1. unfold bind at 1. unfold emit at 1.
  rewrite F. unfold ret at 1. rewrite D. unfold ret at 1.
  rewrite (bind_eq _ _ _ _ _ (print_eq _ _)).
  rewrite (bind_eq _ _ _ _ _ (print_eq _ _)).
  rewrite (bind_eq _ _ _ _ _ (print_eq _ _)).
  match goal with
  | |- context [bind (foldM (scan_subdir clock) ?l ?a) _ ?s] =>
      destruct (scan_subdirs_frozen clock C l a s B) as (st' & E)
  end.
  unfold bind. rewrite E. eauto.
Qed.

Lemma X7_witness :
  (forall i j, (frozen_clock i == frozen_clock j)%Q) /\
  Examples.fs "/music" = Listing [Dir "album" (Examples.tracks 100)] /\
  exists st',
    count_music_files frozen_clock Examples.fs MUSIC_EXTENSIONS "/music" init
    = (Raise ZeroDivisionError, st').
Proof.
  split; [intros i j; reflexivity|]. split; [reflexivity|].
  apply (X7_standing_clock_raises_at_one_hundred
           frozen_clock Examples.fs MUSIC_EXTENSIONS "/music"
           [Dir "album" (Examples.tracks 100)] init).
  - intros i j. reflexivity.
  - reflexivity.
  - vm_compute. reflexivity.
Defined.

(* ================================================================== *)
(** * The by-subfolder table                                            *)
(* ================================================================== *)

(** Sorting by descending count is stable: the entries of one count keep
    the order they had. *)
Lemma insert_by_count_filter (k : nat) (x : string * nat) (l : list (string * nat)) :
  filter (fun item => snd item =? k)
         (insert_sorted (fun x y => snd y <=? snd x) x l)
  = filter (fun item => snd item =? k) (x :: l).
Proof.
  induction l as [|y r IH]; [reflexivity|].
  cbn [insert_sorted]. destruct (snd y <=? snd x) eqn:B; [reflexivity|].
  apply Nat.leb_gt in B.
  cbn [filter] in *. rewrite IH.
  destruct (snd x =? k) eqn:X, (snd y =? k) eqn:Y; try reflexivity.
  apply Nat.eqb_eq in X, Y. lia.
Qed.

Lemma sorted_by_count_desc_stable (k : nat) (l : list (string * nat)) :
  filter (fun item => snd item =? k) (sorted_by_count_desc l)
  = filter (fun item => snd item =? k) l.
Proof.
  unfold sorted_by_count_desc.
  induction l as [|x l IH]; [reflexivity|].
  cbn [sorted_with fold_right]. fold (sorted_with (fun x y : string * nat => snd y <=? snd x) l).
  rewrite insert_by_count_filter. cbn [filter]. now rewrite IH.
Qed.

(** X8.  The by-subfolder table (lines 126-128) prints one row per entry
    of the Folder Count Map, in descending order of count; subfolders with
    the same count stay in the order of the map, that is the order in
    which they were scanned. *)
Theorem X8_table1_order
        (folder_counts : Dict.t) (total_count : nat) (st : state) :
  exists rows st',
    print_table1 folder_counts total_count st = (Ok tt, st') /\
    output st' = (output st ++ map (count_row BySubfolder total_count) rows)%list /\
    Permutation rows (Dict.items folder_counts) /\
    StronglySorted (fun x y => snd y <= snd x) rows /\
    (forall k, filter (fun item => snd item =? k) rows
               = filter (fun item => snd item =? k) (Dict.items folder_counts)).
Proof.
  exists (sorted_by_count_desc (Dict.items folder_counts)),
         (printed (table1_rows folder_counts total_count) st).
  split; [apply print_table1_eq|]. split; [apply output_printed|].
  split; [apply sorted_with_perm|]. split.
  - eapply StronglySorted_weaken;
      [|apply (sorted_with_sorted _ count_desc_total count_desc_trans)].
    intros x y H. now apply Nat.leb_le.
  - intros k. apply sorted_by_count_desc_stable.
Qed.

(* ================================================================== *)
(** * The progress lines                                                *)
(* ================================================================== *)

(** The subdirectory and the count shown by each progress line. *)
Definition progress_of_line (l : line) : list (string * nat) :=
  match l with
  | LProgress name subdir_count _ => [(name, subdir_count)]
  | _ => []
  end.

Definition progress_counts (out : list line) : list (string * nat) :=
  flat_map progress_of_line out.

(** The counts above [sc], up to [sc + m], that are multiples of 100. *)
Definition hundreds (sc m : nat) : list nat :=
  filter (fun c => c mod 100 =? 0) (seq (sc + 1) m).

Lemma hundreds_S (sc m : nat) :
  hundreds sc (S m)
  = ((if (sc + 1) mod 100 =? 0 then [sc + 1] else []) ++ hundreds (sc + 1) m)%list.
Proof.
  unfold hundreds. cbn [seq filter].
  replace (S (sc + 1)) with (sc + 1 + 1) by lia.
  now destruct (_ =? 0).
Qed.

Lemma hundreds_add (sc m1 m2 : nat) :
  hundreds sc (m1 + m2) = (hundreds sc m1 ++ hundreds (sc + m1) m2)%list.
Proof.
  unfold hundreds. rewrite seq_app, filter_app.
  now replace (sc + 1 + m1) with (sc + m1 + 1) by lia.
Qed.

Lemma progress_counts_app (l1 l2 : list line) :
  progress_counts (l1 ++ l2)%list
  = (progress_counts l1 ++ progress_counts l2)%list.
Proof. apply flat_map_app. Qed.

Lemma output_emit (e : event) (n m : nat) (rest : list event) :
  output (mkState n (e :: rest))
  = (output (mkState m rest)
            ++ match e with Print l => [l] | _ => [] end)%list.
Proof.
  unfold output. cbn [log rev]. rewrite flat_map_app. cbn [flat_map].
  now rewrite app_nil_r.
Qed.

Lemma output_ticks (n m : nat) (l : list event) :
  output (mkState n l) = output (mkState m l).
Proof. reflexivity. Qed.

Lemma emit_output (e : event) (st : state) (a : unit) (st' : state) :
  emit e st = (Ok a, st') ->
  output st' = (output st ++ match e with Print l => [l] | _ => [] end)%list.
Proof.
  unfold emit. intros H. inversion H; subst. destruct st as [n l].
  apply output_emit.
Qed.

Lemma print_output (l : line) (st : state) (a : unit) (st' : state) :
  print l st = (Ok a, st') -> output st' = (output st ++ [l])%list.
Proof. apply (emit_output (Print l)). Qed.

Lemma time_output (clock : nat -> Q) (st : state) (a : Q) (st' : state) :
  time_time clock st = (Ok a, st') -> output st' = output st.
Proof. unfold time_time. intros H. now inversion H. Qed.

Section Progress.
Variable clock : nat -> Q.

Lemma scan_file_progress_counts name t0 file sc tc ec st sc' tc' ec' st' :
  scan_file clock name t0 file (sc, tc, ec) st = (Ok (sc', tc', ec'), st') ->
  progress_counts (output st')
  = (progress_counts (output st)
     ++ map (pair name) (hundreds sc (List.length (music_exts [file]))))%list.
Proof.
  destruct (is_music file) eqn:E.
  - rewrite (music_exts_count _ _ E). cbn [List.length].
    rewrite hundreds_S. unfold hundreds at 1. cbn [seq filter].
    rewrite app_nil_r.
    destruct ((sc + 1) mod 100 =? 0) eqn:H.
    + apply Nat.eqb_eq in H.
      rewrite (scan_file_progress clock name t0 file sc tc ec st E H).
      destruct (Qeq_bool _ 0); [discriminate|].
      intros R. inversion R; subst. destruct st as [n l]. cbn [ticks log].
      rewrite (output_emit _ _ n). now rewrite progress_counts_app.
    + apply Nat.eqb_neq in H.
      rewrite (scan_file_quiet clock name t0 file sc tc ec st E H).
      intros R. inversion R; subst. now rewrite app_nil_r.
  - rewrite (music_exts_skip _ _ E).
    rewrite (scan_file_skip clock name t0 file _ st E).
    intros R. inversion R; subst. now rewrite app_nil_r.
Qed.

Lemma scan_files_progress_counts name t0 files :
  forall sc tc ec st sc' tc' ec' st',
    foldM (scan_file clock name t0) files (sc, tc, ec) st
    = (Ok (sc', tc', ec'), st') ->
    progress_counts (output st')
    = (progress_counts (output st)
       ++ map (pair name) (hundreds sc (List.length (music_exts files))))%list.
Proof.
  induction files as [|file files IH]; intros sc tc ec st sc' tc' ec' st' H.
  - inv_ret H. now rewrite app_nil_r.
  - cbn [foldM] in H. inv_bind H. destruct a as [[sc1 tc1] ec1].
    pose proof (scan_file_progress_counts _ _ _ _ _ _ _ _ _ _ _ E) as P1.
    apply scan_file_Ok in E. destruct E as (-> & _ & _).
    apply IH in H. rewrite H, P1, <- app_assoc, <- map_app. do 2 f_equal.
    change (file :: files) with ([file] ++ files)%list.
    now rewrite music_exts_app, length_app, hundreds_add.
Qed.

Lemma scan_walk_progress_counts name t0 (walk : list (list string)) :
  forall sc tc ec st sc' tc' ec' st',
    foldM (fun files acc => foldM (scan_file clock name t0) files acc)
          walk (sc, tc, ec) st
    = (Ok (sc', tc', ec'), st') ->
    progress_counts (output st')
    = (progress_counts (output st)
       ++ map (pair name)
              (hundreds sc (List.length (music_exts (List.concat walk)))))%list.
Proof.
  induction walk as [|files walk IH]; intros sc tc ec st sc' tc' ec' st' H.
  - inv_ret H. now rewrite app_nil_r.
  - cbn [foldM] in H. inv_bind H. destruct a as [[sc1 tc1] ec1].
    pose proof (scan_files_progress_counts _ _ _ _ _ _ _ _ _ _ _ E) as P1.
    apply scan_files_Ok in E. destruct E as (-> & _ & _).
    apply IH in H. rewrite H, P1, <- app_assoc, <- map_app. do 2 f_equal.
    cbn [List.concat].
    now rewrite music_exts_app, length_app, hundreds_add.
Qed.

Lemma scan_subdir_progress_counts subdir acc st acc' st' :
  scan_subdir clock subdir acc st = (Ok acc', st') ->
  progress_counts (output st')
  = (progress_counts (output st)
     ++ map (pair (node_name subdir)) (hundreds 0 (subdir_total subdir)))%list.
Proof.
  destruct acc as [[[mfc tc] cc] ec]. unfold scan_subdir. intros H.
  inv_bind H. inv_bind H. inv_bind H. inv_bind H.
  destruct a2 as [[sc1 tc1] ec1].
  apply scan_walk_progress_counts in E2.
  inv_bind H. inv_bind H. inv_bind H.
  apply print_output in E, E5. apply time_output in E0, E3.
  apply emit_output in E1. cbn [app] in E1. rewrite app_nil_r in E1.
  assert (S5 : st5 = st4).
  { unfold truediv, raise, ret in E4.
    destruct (truthy _); [destruct (Qeq_bool _ 0)|]; now inversion E4. }
  rewrite S5 in E5. clear S5 E4. inv_ret H.
  rewrite E5, progress_counts_app, E3, E2, E1, E0, E, progress_counts_app.
  cbn [progress_counts flat_map progress_of_line app]. rewrite !app_nil_r.
  reflexivity.
Qed.

Lemma scan_subdirs_progress_counts (subdirs : list node) :
  forall acc st acc' st',
    foldM (scan_subdir clock) subdirs acc st = (Ok acc', st') ->
    progress_counts (output st')
    = (progress_counts (output st)
       ++ flat_map (fun s => map (pair (node_name s))
                                 (hundreds 0 (subdir_total s))) subdirs)%list.
Proof.
  induction subdirs as [|s subdirs IH]; intros acc st acc' st' H.
  - inv_ret H. now rewrite app_nil_r.
  - cbn [foldM] in H. inv_bind H.
    apply scan_subdir_progress_counts in E. apply IH in H.
    rewrite H, E, <- app_assoc. reflexivity.
Qed.

End Progress.

(** The immediate subdirectories of the root, in the order of the listing. *)
Definition top_subdirs (root : path_target) : list node :=
  match root with
  | Listing entries => filter is_dir entries
  | Missing | NotDir | Unreadable => []
  end.

(** X9.  The progress lines of a returning scan are exactly these: for
    each immediate subdirectory in turn, one line for every multiple of
    100 that its running count reaches, showing that count; a flat or an
    unreadable root prints none. *)
Theorem X9_progress_lines_at_each_hundred
        (clock : nat -> Q) (fs : string -> path_target) (set_iter : list string)
        (root_path : string) (st : state) (results : scan_results) (st' : state) :
  count_music_files clock fs set_iter root_path st = (Ok results, st') ->
  progress_counts (output st')
  = (progress_counts (output st)
     ++ flat_map (fun s => map (pair (node_name s))
                               (filter (fun c => c mod 100 =? 0)
                                       (seq 1 (subdir_total s))))
                 (top_subdirs (fs root_path)))%list.
Proof.
  unfold count_music_files. intros H. inv_bind H.
  unfold try_except, scandir, bind, emit, raise, ret, print in E.
  simpl in E.
  destruct (fs root_path) as [| | |entries] eqn:F; simpl in E;
    try discriminate.
  - inversion E; subst. inv_ret H. destruct st as [n l]. cbn [ticks log].
    rewrite (output_emit _ _ n), (output_emit _ _ n), !progress_counts_app.
    simpl. now rewrite !app_nil_r.
  - cbn [top_subdirs].
    destruct (filter is_dir entries) as [|s subdirs] eqn:D.
    + rewrite scan_root_entries in E. inversion E; subst. inv_ret H.
      destruct st as [n l]. cbn [ticks log].
      rewrite (output_emit _ _ n), (output_emit _ _ n), (output_emit _ _ n),
        !progress_counts_app.
      simpl. now rewrite !app_nil_r.
    + inversion E; subst.
      inv_bind H. inv_bind H. inv_bind H. inv_bind H.
      apply print_output in E0, E1, E2.
      apply scan_subdirs_progress_counts in E3.
      destruct a2 as [[[mfc1 tc1] cc1] ec1]. inv_ret H.
      rewrite E3, E2, E1, E0, !progress_counts_app.
      destruct st as [n l]. cbn [ticks log].
      rewrite (output_emit _ _ n), progress_counts_app.
      cbn [progress_counts flat_map progress_of_line app].
      rewrite !app_nil_r. reflexivity.
Qed.

Lemma X9_witness :
  fst (count_music_files Examples.ticking_clock Examples.fs MUSIC_EXTENSIONS
                         "/music" init)
  = Ok ([("album", 100)], 100,
        [(".mp3", 100); (".aac", 0); (".wav", 0); (".flac", 0); (".m4a", 0);
         (".oga", 0); (".ape", 0); (".dsf", 0); (".dff", 0); (".aiff", 0);
         (".aif", 0); (".ogg", 0)]) /\
  progress_counts
    (output (snd (count_music_files Examples.ticking_clock Examples.fs
                                    MUSIC_EXTENSIONS "/music" init)))
  = [("album", 100)].
Proof.
  split; [vm_compute; reflexivity|].
  rewrite (X9_progress_lines_at_each_hundred
             Examples.ticking_clock Examples.fs MUSIC_EXTENSIONS "/music" init
             ([("album", 100)], 100,
              [(".mp3", 100); (".aac", 0); (".wav", 0); (".flac", 0);
               (".m4a", 0); (".oga", 0); (".ape", 0); (".dsf", 0); (".dff", 0);
               (".aiff", 0); (".aif", 0); (".ogg", 0)])
             (snd (count_music_files Examples.ticking_clock Examples.fs
                                     MUSIC_EXTENSIONS "/music" init))).
  - vm_compute. reflexivity.
  - vm_compute. reflexivity.
Defined.

(* ================================================================== *)
(** * The name of a flat root                                           *)
(* ================================================================== *)

(** [os.path.basename] gives what follows the last slash. *)
Lemma basename_after_slash (dir name : string) :
  Str.has_char "/" name = false -> Str.basename (dir ++ "/" ++ name) = name.
Proof.
  intros H. unfold Str.basename.
  change ("/" ++ name) with (String "/" name).
  rewrite (StrFacts.rfind_last "/" dir name H).
  replace (Z.to_nat (Z.of_nat (String.length dir) + 1))
    with (S (String.length dir)) by lia.
  induction dir as [|c r IH]; simpl; auto.
Qed.

Lemma basename_no_slash (name : string) :
  Str.has_char "/" name = false -> Str.basename name = name.
Proof.
  unfold Str.has_char, Str.basename. intros H. apply Z.leb_gt in H.
  pose proof (StrFacts.rfind_range "/" name).
  replace (Str.rfind "/" name) with (-1)%Z by lia. reflexivity.
Qed.

(** X10.  The single entry that a flat root leaves in the Folder Count Map
    is named by what follows the last slash of the path as it was given
    (lines 49-51): the directory name for [dir/name], and the empty string
    when the path ends with a slash. *)
Theorem X10_flat_root_is_keyed_by_the_last_component
        (clock : nat -> Q) (fs : string -> path_target) (set_iter : list string)
        (dir name : string) (entries : list node) (st : state) :
  fs (dir ++ "/" ++ name) = Listing entries ->
  existsb is_dir entries = false ->
  Str.has_char "/" name = false ->
  exists ec st',
    count_music_files clock fs set_iter (dir ++ "/" ++ name) st
    = (Ok ([(name, direct_count entries)], direct_count entries, ec), st') /\
    output st' = (output st ++ [LFound (direct_count entries) name])%list.
Proof.
  intros F D N. apply existsb_filter_nil in D.
  pose proof (basename_after_slash dir name N) as B.
  remember (dir ++ "/" ++ name) as root_path eqn:R. clear R.
  unfold count_music_files, try_except, scandir, bind, print, emit, ret, raise.
  simpl. rewrite F, D, scan_root_entries. simpl. rewrite B.
  unfold direct_count.
  rewrite length_music_exts, filter_music_files, length_map.
  do 2 eexists. split; [reflexivity|].
  destruct st as [n l]. cbn [ticks log].
  rewrite (output_emit _ _ n), (output_emit _ _ n), (output_emit _ _ n).
  now rewrite !app_nil_r.
Qed.

(** A file system in which the flat directory is reached by a path with a
    trailing slash. *)
Definition trailing_slash_fs (path : string) : path_target :=
  if String.eqb path "/flat/" then Listing Examples.flat_entries else Missing.

Lemma X10_witness :
  trailing_slash_fs ("/flat" ++ "/" ++ "") = Listing Examples.flat_entries /\
  exists ec st',
    count_music_files Examples.ticking_clock trailing_slash_fs MUSIC_EXTENSIONS
                      "/flat/" init
    = (Ok ([("", 3)], 3, ec), st') /\
    output st' = [LFound 3 ""].
Proof.
  split; [reflexivity|].
  exact (X10_flat_root_is_keyed_by_the_last_component
           Examples.ticking_clock trailing_slash_fs MUSIC_EXTENSIONS
           "/flat" "" Examples.flat_entries init eq_refl eq_refl eq_refl).
Defined.

(* ================================================================== *)
(** * The numbers of the report                                         *)
(* ================================================================== *)

Lemma In_le_list_sum (v : nat) (l : list nat) : In v l -> v <= list_sum l.
Proof.
  induction l as [|x l IH]; simpl; [tauto|].
  intros [->|H]; [lia|]. apply IH in H. lia.
Qed.

Lemma In_items_le_total (d : Dict.t) (name : string) (count : nat) :
  In (name, count) d -> count <= Dict.total d.
Proof.
  intros H. apply In_le_list_sum. unfold Dict.values.
  apply in_map_iff. now exists (name, count).
Qed.

(** The sums of a returning scan. *)
Lemma scan_totals
      (clock : nat -> Q) (fs : string -> path_target) (set_iter : list string)
      (root_path : string) (st : state)
      (mfc : Dict.t) (total : nat) (ec : Dict.t) (st' : state) :
  names_distinct (fs root_path) = true ->
  count_music_files clock fs set_iter root_path st = (Ok (mfc, total, ec), st') ->
  Dict.total mfc = total /\ Dict.total ec = total.
Proof.
  intros W H. apply count_music_files_Ok in H. destruct H as (-> & -> & ->).
  split.
  - unfold folder_map, scanned_files.
    destruct (fs root_path) as [| | |entries]; try reflexivity.
    destruct (filter is_dir entries) as [|s subdirs] eqn:D.
    + unfold Dict.total. simpl. lia.
    + destruct (folder_map_subdirs (s :: subdirs) []) as [T _].
      * rewrite <- D. apply NoDup_map_filter, distinct_NoDup, W.
      * intros s' _ [].
      * rewrite T. reflexivity.
  - rewrite DictFacts.total_fold_incr.
    change (initial_extension_counts set_iter) with (DictFacts.zeros set_iter []).
    rewrite (DictFacts.zeros_total set_iter [] eq_refl). reflexivity.
Qed.

(** A part of the total is between 0 and 100 percent of it. *)
Lemma percentage_value_bounds (count total_count : nat) :
  count <= total_count ->
  (0 <= percentage_value count total_count <= 100)%Q.
Proof.
  intros L. unfold percentage_value.
  destruct (0 <? total_count) eqn:G; [|split; discriminate].
  apply Nat.ltb_lt in G. unfold Q_of_nat.
  assert (Y : (0 < inject_Z (Z.of_nat total_count))%Q)
    by (rewrite <- (Zlt_Qlt 0); lia).
  assert (X0 : (0 <= inject_Z (Z.of_nat count))%Q)
    by (rewrite <- (Zle_Qle 0); lia).
  assert (XY : (inject_Z (Z.of_nat count) <= inject_Z (Z.of_nat total_count))%Q)
    by (rewrite <- Zle_Qle; lia).
  assert (Q0 : (0 <= inject_Z (Z.of_nat count) / inject_Z (Z.of_nat total_count))%Q).
  { apply Qle_shift_div_l; [exact Y|]. lra. }
  assert (Q1 : (inject_Z (Z.of_nat count) / inject_Z (Z.of_nat total_count) <= 1)%Q).
  { apply Qle_shift_div_r; [exact Y|]. lra. }
  split; lra.
Qed.

(** X11.  In the report of a returning scan no percentage is below 0 or
    above 100: every count of the Folder Count Map and of the Extension
    Count Map is at most the Total Count, and the percentage computed for
    it (lines 127 and 148) is returned without an exception and lies
    between 0 and 100. *)
Theorem X11_percentages_between_0_and_100
        (clock : nat -> Q) (fs : string -> path_target) (set_iter : list string)
        (root_path : string) (st : state)
        (mfc : Dict.t) (total : nat) (ec : Dict.t) (st' : state)
        (name : string) (count : nat) (st0 : state) :
  names_distinct (fs root_path) = true ->
  count_music_files clock fs set_iter root_path st = (Ok (mfc, total, ec), st') ->
  In (name, count) (Dict.items mfc) \/ In (name, count) (Dict.items ec) ->
  count <= total /\
  exists q, percentage count total st0 = (Ok q, st0) /\ (0 <= q <= 100)%Q.
Proof.
  intros W H I.
  destruct (scan_totals clock fs set_iter root_path st mfc total ec st' W H)
    as [T1 T2].
  assert (L : count <= total).
  { unfold Dict.items in I.
    destruct I as [I|I]; apply In_items_le_total in I; lia. }
  split; [exact L|].
  exists (percentage_value count total).
  split; [apply percentage_Ok | now apply percentage_value_bounds].
Qed.

Lemma X11_witness :
  names_distinct (Examples.fs "/mixed") = true /\
  In (".wav", 1)
     [(".mp3", 1); (".aac", 0); (".wav", 1); (".flac", 0); (".m4a", 0);
      (".oga", 0); (".ape", 0); (".dsf", 0); (".dff", 0); (".aiff", 1);
      (".aif", 1); (".ogg", 0)] /\
  1 <= 4 /\
  exists q, percentage 1 4 init = (Ok q, init) /\ (0 <= q <= 100)%Q.
Proof.
  split; [reflexivity|]. split; [simpl; tauto|].
  apply (X11_percentages_between_0_and_100
           Examples.ticking_clock Examples.fs MUSIC_EXTENSIONS "/mixed" init
           [("A", 2); ("B", 2); ("C", 0)] 4
           [(".mp3", 1); (".aac", 0); (".wav", 1); (".flac", 0); (".m4a", 0);
            (".oga", 0); (".ape", 0); (".dsf", 0); (".dff", 0); (".aiff", 1);
            (".aif", 1); (".ogg", 0)]
           (snd (count_music_files Examples.ticking_clock Examples.fs
                                   MUSIC_EXTENSIONS "/mixed" init))
           ".wav" 1 init).
  - reflexivity.
  - vm_compute. reflexivity.
  - right. simpl. tauto.
Defined.

Lemma row_names_app (l1 l2 : list line) :
  row_names (l1 ++ l2)%list = (row_names l1 ++ row_names l2)%list.
Proof. apply flat_map_app. Qed.

Lemma row_names_count_rows (t : table) (total : nat) (items : list (string * nat)) :
  row_names (map (count_row t total) items) = map fst items.
Proof. induction items as [|x items IH]; simpl; congruence. Qed.

Lemma row_names_zero_rows (exts : list string) :
  row_names (map zero_row exts) = exts.
Proof. induction exts as [|x exts IH]; simpl; congruence. Qed.

(** The two groups of the by-extension table share out the dictionary. *)
Lemma zero_and_non_zero_perm (d : Dict.t) :
  Permutation (filter (fun '(_, count) => 0 <? count) d
               ++ filter (fun '(_, count) => count =? 0) d)%list d.
Proof.
  induction d as [|[ext count] r IH]; [reflexivity|].
  simpl. destruct count; simpl.
  - apply Permutation_sym, Permutation_cons_app, Permutation_sym, IH.
  - now constructor.
Qed.

(** The rows of the report name the keys of the two maps, each once. *)
Lemma row_names_report_lines folder_counts total_count extension_counts elapsed :
  Permutation
    (row_names (report_lines folder_counts total_count extension_counts elapsed))
    (Dict.keys folder_counts ++ Dict.keys extension_counts).
Proof.
  unfold report_lines, row_names.
  cbn [app flat_map]. rewrite flat_map_app.
  cbn [app flat_map]. rewrite flat_map_app.
  cbn [app flat_map]. rewrite app_nil_r.
  fold (row_names (table1_rows folder_counts total_count)).
  fold (row_names (table2_rows extension_counts total_count)).
  unfold table1_rows, table2_rows.
  rewrite row_names_app, !row_names_count_rows, row_names_zero_rows.
  unfold sorted_by_count_desc, sorted_strings, Dict.keys, Dict.items.
  apply Permutation_app.
  - apply Permutation_map, sorted_with_perm.
  - rewrite (sorted_with_perm String.leb).
    rewrite (Permutation_map fst (sorted_with_perm _ _)).
    rewrite <- map_app. apply Permutation_map, zero_and_non_zero_perm.
Qed.

(** The number of rows of the by-subfolder table after a scan. *)
Definition subfolder_rows (root : path_target) : nat :=
  match root with
  | Listing entries =>
      match filter is_dir entries with
      | [] => 1
      | subdirs => List.length subdirs
      end
  | Missing | NotDir | Unreadable => 0
  end.

(** X12.  The report of a returning scan has one row per immediate
    subdirectory (one row for a flat root, none for an unreadable root)
    followed by twelve extension rows, whatever was found. *)
Theorem X12_rows_of_the_report
        (clock : nat -> Q) (fs : string -> path_target) (set_iter : list string)
        (root_path : string) (st : state)
        (mfc : Dict.t) (total : nat) (ec : Dict.t) (st' : state)
        (elapsed : Q) :
  Permutation set_iter MUSIC_EXTENSIONS ->
  names_distinct (fs root_path) = true ->
  count_music_files clock fs set_iter root_path st = (Ok (mfc, total, ec), st') ->
  exists lines st'',
    report mfc total ec elapsed st' = (Ok tt, st'') /\
    output st'' = (output st' ++ lines)%list /\
    List.length (row_names lines) = subfolder_rows (fs root_path) + 12 /\
    Permutation (row_names lines) (Dict.keys mfc ++ MUSIC_EXTENSIONS).
Proof.
  intros P W H.
  exists (report_lines mfc total ec elapsed),
         (printed (report_lines mfc total ec elapsed) st').
  split; [apply report_eq|]. split; [apply output_printed|].
  apply count_music_files_Ok in H. destruct H as (Hm & _ & He).
  assert (K : Dict.keys ec = set_iter).
  { rewrite He, DictFacts.keys_fold_incr.
    - change (initial_extension_counts set_iter)
        with (DictFacts.zeros set_iter []).
      apply (DictFacts.zeros_keys set_iter []). simpl.
      apply (Permutation_NoDup (Permutation_sym P)), catalog_NoDup.
    - intros x Hx.
      change (initial_extension_counts set_iter)
        with (DictFacts.zeros set_iter []).
      rewrite (DictFacts.zeros_keys set_iter []);
        [|simpl; apply (Permutation_NoDup (Permutation_sym P)), catalog_NoDup].
      apply (Permutation_in _ (Permutation_sym P)).
      now apply (music_exts_catalog _ _ Hx). }
  assert (R : Permutation (row_names (report_lines mfc total ec elapsed))
                          (Dict.keys mfc ++ Dict.keys ec)).
  { apply row_names_report_lines. }
  split.
  - rewrite (Permutation_length R), length_app, K, (Permutation_length P).
    f_equal. rewrite Hm. unfold folder_map, subfolder_rows.
    destruct (fs root_path) as [| | |entries]; try reflexivity.
    destruct (filter is_dir entries) as [|s subdirs] eqn:D; [reflexivity|].
    destruct (folder_map_subdirs (s :: subdirs) []) as [_ Kf].
    + rewrite <- D. apply NoDup_map_filter, distinct_NoDup, W.
    + intros s' _ [].
    + rewrite Kf. simpl. now rewrite length_map.
  - rewrite R, K. now apply Permutation_app_head.
Qed.

Lemma X12_witness :
  Permutation (rev MUSIC_EXTENSIONS) MUSIC_EXTENSIONS /\
  names_distinct (Examples.fs "/mixed") = true /\
  exists lines st'',
    report [("A", 2); ("B", 2); ("C", 0)] 4
           [(".ogg", 0); (".aif", 1); (".aiff", 1); (".dff", 0); (".dsf", 0);
            (".ape", 0); (".oga", 0); (".m4a", 0); (".flac", 0); (".wav", 1);
            (".aac", 0); (".mp3", 1)]
           (7 # 2)
           (snd (count_music_files Examples.ticking_clock Examples.fs
                                   (rev MUSIC_EXTENSIONS) "/mixed" init))
    = (Ok tt, st'') /\
    output st''
    = (output (snd (count_music_files Examples.ticking_clock Examples.fs
                                      (rev MUSIC_EXTENSIONS) "/mixed" init))
       ++ lines)%list /\
    List.length (row_names lines) = subfolder_rows (Examples.fs "/mixed") + 12 /\
    Permutation (row_names lines) (["A"; "B"; "C"] ++ MUSIC_EXTENSIONS).
Proof.
  split; [apply Permutation_sym, Permutation_rev|]. split; [reflexivity|].
  apply (X12_rows_of_the_report
           Examples.ticking_clock Examples.fs (rev MUSIC_EXTENSIONS) "/mixed" init
           [("A", 2); ("B", 2); ("C", 0)] 4
           [(".ogg", 0); (".aif", 1); (".aiff", 1); (".dff", 0); (".dsf", 0);
            (".ape", 0); (".oga", 0); (".m4a", 0); (".flac", 0); (".wav", 1);
            (".aac", 0); (".mp3", 1)]).
  - apply Permutation_sym, Permutation_rev.
  - reflexivity.
  - vm_compute. reflexivity.
Defined.






(* ================================================================== *)
(** * The readings of the clock and the row of a subdirectory           *)
(* ================================================================== *)

Lemma emit_inv (e : event) (st : state) (a : unit) (st' : state) :
  emit e st = (Ok a, st') -> st' = mkState (ticks st) (e :: log st).
Proof. unfold emit. intros H. now inversion H. Qed.

Lemma time_inv (clock : nat -> Q) (st : state) (a : Q) (st' : state) :
  time_time clock st = (Ok a, st') ->
  a = clock (ticks st) /\ st' = mkState (S (ticks st)) (log st).
Proof. unfold time_time. intros H. now inversion H. Qed.

Section Readings.
Variable clock : nat -> Q.

Lemma scan_file_ticks name t0 file sc tc ec st sc' tc' ec' st' :
  scan_file clock name t0 file (sc, tc, ec) st = (Ok (sc', tc', ec'), st') ->
  ticks st'
  = ticks st + List.length (hundreds sc (List.length (music_exts [file]))).
Proof.
  destruct (is_music file) eqn:E.
  - rewrite (music_exts_count _ _ E). cbn [List.length].
    rewrite hundreds_S. unfold hundreds at 1. cbn [seq filter].
    rewrite app_nil_r.
    destruct ((sc + 1) mod 100 =? 0) eqn:H.
    + apply Nat.eqb_eq in H.
      rewrite (scan_file_progress clock name t0 file sc tc ec st E H).
      destruct (Qeq_bool _ 0); [discriminate|].
      intros R. inversion R; subst. simpl. lia.
    + apply Nat.eqb_neq in H.
      rewrite (scan_file_quiet clock name t0 file sc tc ec st E H).
      intros R. inversion R; subst. simpl. lia.
  - rewrite (music_exts_skip _ _ E).
    rewrite (scan_file_skip clock name t0 file _ st E).
    intros R. inversion R; subst. simpl. lia.
Qed.

Lemma scan_files_ticks name t0 files :
  forall sc tc ec st sc' tc' ec' st',
    foldM (scan_file clock name t0) files (sc, tc, ec) st
    = (Ok (sc', tc', ec'), st') ->
    ticks st'
    = ticks st + List.length (hundreds sc (List.length (music_exts files))).
Proof.
  induction files as [|file files IH]; intros sc tc ec st sc' tc' ec' st' H.
  - inv_ret H. simpl. lia.
  - cbn [foldM] in H. inv_bind H. destruct a as [[sc1 tc1] ec1].
    pose proof (scan_file_ticks _ _ _ _ _ _ _ _ _ _ _ E) as P1.
    apply scan_file_Ok in E. destruct E as (-> & _ & _).
    apply IH in H. rewrite H, P1.
    change (file :: files) with ([file] ++ files)%list.
    rewrite music_exts_app, (length_app (music_exts [file])), hundreds_add,
      (length_app (hundreds _ _)).
    lia.
Qed.

Lemma scan_walk_ticks name t0 (walk : list (list string)) :
  forall sc tc ec st sc' tc' ec' st',
    foldM (fun files acc => foldM (scan_file clock name t0) files acc)
          walk (sc, tc, ec) st
    = (Ok (sc', tc', ec'), st') ->
    ticks st'
    = ticks st
      + List.length (hundreds sc (List.length (music_exts (List.concat walk)))).
Proof.
  induction walk as [|files walk IH]; intros sc tc ec st sc' tc' ec' st' H.
  - inv_ret H. simpl. lia.
  - cbn [foldM] in H. inv_bind H. destruct a as [[sc1 tc1] ec1].
    pose proof (scan_files_ticks _ _ _ _ _ _ _ _ _ _ _ E) as P1.
    apply scan_files_Ok in E. destruct E as (-> & _ & _).
    apply IH in H. rewrite H, P1. cbn [List.concat].
    rewrite music_exts_app, (length_app (music_exts files)), hundreds_add,
      (length_app (hundreds _ _)).
    lia.
Qed.

End Readings.

(** X14.  A top-level subdirectory whose scan returns (lines 63-89): the
    clock is read once at the start, once for each progress line and once
    at the end; the last line printed is the row of the subdirectory, with
    its count, the cumulative count and the speed, which is the count
    divided by the time between the first and the last reading, and 0 when
    that time is zero. *)
Theorem X14_row_of_a_subdirectory
        (clock : nat -> Q) (subdir : node)
        (mfc : Dict.t) (tc cc : nat) (ec : Dict.t) (st : state)
        (acc' : Dict.t * nat * nat * Dict.t) (st' : state) :
  scan_subdir clock subdir (mfc, tc, cc, ec) st = (Ok acc', st') ->
  let n := subdir_total subdir in
  let progress := List.length (filter (fun c => c mod 100 =? 0) (seq 1 n)) in
  let elapsed := (clock (ticks st + 1 + progress)%nat - clock (ticks st))%Q in
  ticks st' = ticks st + 2 + progress /\
  exists earlier,
    output st'
    = (earlier
       ++ [LSubdirRow (node_name subdir) n (cc + n)
                      (if Qeq_bool elapsed 0 then 0%Q
                       else (Q_of_nat n / elapsed)%Q)])%list.
Proof.
  unfold scan_subdir. intros H.
  inv_bind H. inv_bind H. inv_bind H. inv_bind H.
  destruct a2 as [[sc1 tc1] ec1].
  pose proof (scan_walk_ticks _ _ _ _ _ _ _ _ _ _ _ _ E2) as T.
  apply scan_walk_Ok in E2. destruct E2 as (S1 & _ & _).
  inv_bind H. inv_bind H. inv_bind H.
  apply emit_inv in E, E1, E4. apply time_inv in E0, E2.
  destruct E0 as [A0 S0], E2 as [A2 S4].
  assert (S5 : st5 = st4 /\
               a3 = if Qeq_bool (a2 - a0) 0 then 0%Q
                    else (Q_of_nat sc1 / (a2 - a0))%Q).
  { unfold truthy, truediv, raise, ret in E3.
    destruct (Qeq_bool (a2 - a0) 0); simpl in E3; now inversion E3. }
  destruct S5 as [S5 A3]. clear E3.
  inv_ret H. cbn [ticks log] in *.
  fold (subdir_files subdir) in T. fold (subdir_total subdir) in T.
  unfold hundreds in T. simpl (0 + 1) in T.
  replace (ticks st + 1 + List.length
             (filter (fun c => c mod 100 =? 0) (seq 1 (subdir_total subdir))))
    with (ticks st3) by lia.
  split; [lia|].
  rewrite (output_emit _ _ 0). eexists. reflexivity.
Qed.

Lemma X14_witness :
  exists earlier,
    output
      (snd (scan_subdir Examples.coarse_clock (Dir "album" (Examples.tracks 3))
                        ([], 0, 0, initial_extension_counts MUSIC_EXTENSIONS)
                        init))
    = (earlier ++ [LSubdirRow "album" 3 3 0%Q])%list.
Proof.
  destruct (X14_row_of_a_subdirectory
              Examples.coarse_clock (Dir "album" (Examples.tracks 3))
              [] 0 0 (initial_extension_counts MUSIC_EXTENSIONS) init
              ([("album", 3)], 3, 3,
               [(".mp3", 3); (".aac", 0); (".wav", 0); (".flac", 0);
                (".m4a", 0); (".oga", 0); (".ape", 0); (".dsf", 0);
                (".dff", 0); (".aiff", 0); (".aif", 0); (".ogg", 0)])
              (snd (scan_subdir Examples.coarse_clock
                                (Dir "album" (Examples.tracks 3))
                                ([], 0, 0,
                                 initial_extension_counts MUSIC_EXTENSIONS)
                                init)))
    as [_ [earlier E]].
  - vm_compute. reflexivity.
  - exists earlier. rewrite E. reflexivity.
Defined.

(* ================================================================== *)
(** * The program as a whole                                            *)
(* ================================================================== *)

Lemma ticking_clock_distinct (i j : nat) :
  i < j -> ~ (Examples.ticking_clock j == Examples.ticking_clock i)%Q.
Proof.
  intros L E. unfold Examples.ticking_clock, Q_of_nat in E.
  apply (proj1 (inject_Z_injective _ _)) in E. lia.
Qed.

(** X15.  A path that does not exist or does not name a directory (lines
    100-104): [main] prints the error line and the exit status is 1; the
    directory is not listed, nothing is walked, the clock is not read and
    nothing else is printed. *)
Theorem X15_invalid_path_exits_with_status_one
        (clock : nat -> Q) (fs : string -> path_target) (set_iter : list string)
        (folder_path : string) :
  fs folder_path = Missing \/ fs folder_path = NotDir ->
  run clock fs set_iter folder_path
  = (1, mkState 0 [Print (LError folder_path); Isdir folder_path]).
Proof. apply run_rejects_non_directory. Qed.

Lemma X15_witness :
  Examples.fs "/song.mp3" = NotDir /\
  run Examples.ticking_clock Examples.fs MUSIC_EXTENSIONS "/song.mp3"
  = (1, mkState 0 [Print (LError "/song.mp3"); Isdir "/song.mp3"]).
Proof.
  split; [reflexivity|].
  exact (X15_invalid_path_exits_with_status_one
           Examples.ticking_clock Examples.fs MUSIC_EXTENSIONS "/song.mp3"
           (or_intror eq_refl)).
Defined.

(** X16.  With a clock that never gives the same reading twice, the
    program exits with status 0 on every directory, readable or not. *)
Theorem X16_directory_exits_with_status_zero
        (clock : nat -> Q) (fs : string -> path_target) (set_iter : list string)
        (folder_path : string) :
  (forall i j, i < j -> ~ (clock j == clock i)%Q) ->
  fs folder_path <> Missing -> fs folder_path <> NotDir ->
  fst (run clock fs set_iter folder_path) = 0.
Proof. apply run_directory_exit_zero. Qed.

Lemma X16_witness :
  Examples.fs "/music" = Listing [Dir "album" (Examples.tracks 100)] /\
  fst (run Examples.ticking_clock Examples.fs MUSIC_EXTENSIONS "/music") = 0.
Proof.
  split; [reflexivity|].
  apply (X16_directory_exits_with_status_zero
           Examples.ticking_clock Examples.fs MUSIC_EXTENSIONS "/music").
  - exact ticking_clock_distinct.
  - discriminate.
  - discriminate.
Defined.

Lemma isdir_inv (fs : string -> path_target) (path : string)
      (st : state) (b : bool) (st' : state) :
  isdir fs path st = (Ok b, st') ->
  st' = mkState (ticks st) (Isdir path :: log st) /\
  (b = true <-> fs path <> Missing /\ fs path <> NotDir).
Proof.
  unfold isdir, bind, emit, ret. intros H. inversion H; subst. clear H.
  split; [reflexivity|].
  destruct (fs path);
    (split; [intros E; try discriminate E; split; discriminate
            | intros [A B]; try reflexivity; congruence]).
Qed.

(** X17.  Whenever [main] returns, the path named a directory, the three
    header lines were printed first, and the report that closes the output
    is the report of the three results of the scan of that path, with the
    time between the reading of the clock before the scan and the reading
    after it. *)
Theorem X17_main_reports_the_scan
        (clock : nat -> Q) (fs : string -> path_target) (set_iter : list string)
        (folder_path : string) (st st' : state) :
  main clock fs set_iter folder_path st = (Ok tt, st') ->
  fs folder_path <> Missing /\ fs folder_path <> NotDir /\
  exists mfc total ec st1 st2,
    ticks st1 = S (ticks st) /\
    output st1
    = (output st ++ [ LSelected folder_path;
                      LExtensions (sorted_strings MUSIC_EXTENSIONS);
                      LRule 70 ])%list /\
    count_music_files clock fs set_iter folder_path st1
    = (Ok (mfc, total, ec), st2) /\
    report mfc total ec (clock (ticks st2) - clock (ticks st))%Q
           (mkState (S (ticks st2)) (log st2))
    = (Ok tt, st').
Proof.
  unfold main. intros H.
  inv_bind H. apply isdir_inv in E. destruct E as [S0 B].
  destruct a; cbn [negb] in H.
  2:{ inv_bind H. unfold bind, print, emit, raise in E. discriminate. }
  destruct (proj1 B eq_refl) as [N1 N2]. split; [exact N1|]. split; [exact N2|].
  inv_bind H. inv_ret E.
  inv_bind H. inv_bind H. inv_bind H. inv_bind H. inv_bind H.
  destruct a3 as [[mfc total] ec]. inv_bind H.
  apply emit_inv in E, E0, E1. apply time_inv in E2, E4.
  destruct E2 as [A2 S2], E4 as [A4 S4]. subst.
  cbn [ticks log] in *.
  exists mfc, total, ec. do 2 eexists.
  split; [|split; [|split; [exact E3 | exact H]]].
  - reflexivity.
  - destruct st as [n l]. cbn [ticks log].
    rewrite (output_emit _ _ n), (output_emit _ _ n), (output_emit _ _ n),
      (output_emit _ _ n).
    cbn [app]. rewrite app_nil_r, <- !app_assoc. reflexivity.
Qed.

Lemma X17_witness :
  exists mfc total ec st1 st2,
    count_music_files Examples.ticking_clock Examples.fs MUSIC_EXTENSIONS
                      "/library" st1
    = (Ok (mfc, total, ec), st2) /\
    report mfc total ec
           (Examples.ticking_clock (ticks st2) - Examples.ticking_clock 0)%Q
           (mkState (S (ticks st2)) (log st2))
    = (Ok tt,
       snd (main Examples.ticking_clock Examples.fs MUSIC_EXTENSIONS
                 "/library" init)).
Proof.
  destruct (X17_main_reports_the_scan
              Examples.ticking_clock Examples.fs MUSIC_EXTENSIONS "/library"
              init
              (snd (main Examples.ticking_clock Examples.fs MUSIC_EXTENSIONS
                         "/library" init)))
    as (_ & _ & mfc & total & ec & st1 & st2 & _ & _ & C & R).
  - vm_compute. reflexivity.
  - exists mfc, total, ec, st1, st2. split; [exact C | exact R].
Defined.

Lemma row_names_report_lines_eq folder_counts total_count extension_counts elapsed :
  row_names (report_lines folder_counts total_count extension_counts elapsed)
  = (row_names (table1_rows folder_counts total_count)
     ++ row_names (table2_rows extension_counts total_count))%list.
Proof.
  unfold row_names, report_lines.
  cbn [app flat_map]. rewrite flat_map_app.
  cbn [app flat_map]. rewrite flat_map_app.
  cbn [app flat_map]. now rewrite app_nil_r.
Qed.

Lemma unreadable_root_eq
      (clock : nat -> Q) (fs : string -> path_target) (set_iter : list string)
      (root_path : string) (st : state) :
  fs root_path = Unreadable ->
  count_music_files clock fs set_iter root_path st
  = (Ok ([], 0, initial_extension_counts set_iter),
     mkState (ticks st) (Print (LDenied root_path) :: Scandir root_path :: log st)).
Proof.
  intros F.
  unfold count_music_files, try_except, scandir, bind, print, emit, ret, raise.
  simpl. rewrite F. reflexivity.
Qed.

Lemma all_zero_groups (d : Dict.t) :
  Forall (fun v => v = 0) (Dict.values d) ->
  filter (fun '(_, count) => 0 <? count) d = [] /\
  filter (fun '(_, count) => count =? 0) d = d.
Proof.
  induction d as [|[ext count] r IH]; [auto|].
  intros H. apply Forall_cons_iff in H. destruct H as [H0 Hr].
  simpl in H0. subst count.
  destruct (IH Hr) as [A B]. simpl. rewrite A, B. auto.
Qed.

(** X18.  A directory that may not be listed: the program prints the
    header and the permission line, then a report without subfolder rows
    whose twelve extension rows are in alphabetical order with 0.00% each
    and whose total is 0, and exits with status 0. *)
Theorem X18_unreadable_directory_gives_an_empty_report
        (clock : nat -> Q) (fs : string -> path_target) (set_iter : list string)
        (folder_path : string) :
  fs folder_path = Unreadable ->
  exists lines st',
    run clock fs set_iter folder_path = (0, st') /\
    output st'
    = ([ LSelected folder_path;
         LExtensions (sorted_strings MUSIC_EXTENSIONS);
         LRule 70;
         LDenied folder_path ] ++ lines)%list /\
    row_names lines
    = sorted_strings (Dict.keys (initial_extension_counts set_iter)) /\
    Forall (eq "     0.00%") (percentages lines) /\
    In (LTotal 0) lines.
Proof.
  intros F.
  exists (report_lines [] 0 (initial_extension_counts set_iter)
                       (clock 1%nat - clock 0%nat)%Q).
  eexists. split; [|split; [|split; [|split]]].
  - unfold run, main.
    assert (E : isdir fs folder_path init
                = (Ok true, mkState 0 [Isdir folder_path])).
    { unfold isdir, bind, emit, ret. simpl. now rewrite F. }
    rewrite (bind_eq _ _ _ _ _ E). cbn [negb].
    rewrite (bind_eq (ret tt) _ _ tt _ eq_refl).
    rewrite (bind_eq _ _ _ _ _ (print_eq _ _)).
    rewrite (bind_eq _ _ _ _ _ (print_eq _ _)).
    rewrite (bind_eq _ _ _ _ _ (print_eq _ _)).
    rewrite (bind_eq _ _ _ _ _ (time_time_eq _ _)).
    rewrite (bind_eq _ _ _ _ _ (unreadable_root_eq clock fs set_iter _ _ F)).
    rewrite (bind_eq _ _ _ _ _ (time_time_eq _ _)).
    rewrite report_eq. reflexivity.
  - rewrite output_printed. reflexivity.
  - assert (Z : Forall (fun v => v = 0)
                       (Dict.values (initial_extension_counts set_iter)))
      by (apply (zeros_values set_iter []); constructor).
    destruct (all_zero_groups _ Z) as [A B].
    rewrite row_names_report_lines_eq.
    unfold table1_rows, table2_rows, Dict.items.
    rewrite A, B. cbn [sorted_by_count_desc sorted_with fold_right map app].
    change (row_names []) with (@nil string). cbn [app].
    apply row_names_zero_rows.
  - rewrite percentages_report_lines.
    unfold table1_rows, table2_rows. rewrite percentages_app.
    apply Forall_app. split; [apply percentages_count_rows_zero|].
    apply Forall_app. split;
      [apply percentages_count_rows_zero | apply percentages_zero_rows].
  - unfold report_lines. repeat (apply in_or_app; right). simpl. tauto.
Qed.

Lemma X18_witness :
  Examples.fs "/locked" = Unreadable /\
  exists lines st',
    run Examples.ticking_clock Examples.fs MUSIC_EXTENSIONS "/locked" = (0, st') /\
    output st'
    = ([ LSelected "/locked";
         LExtensions (sorted_strings MUSIC_EXTENSIONS);
         LRule 70;
         LDenied "/locked" ] ++ lines)%list /\
    row_names lines
    = [".aac"; ".aif"; ".aiff"; ".ape"; ".dff"; ".dsf"; ".flac"; ".m4a";
       ".mp3"; ".oga"; ".ogg"; ".wav"].
Proof.
  split; [reflexivity|].
  destruct (X18_unreadable_directory_gives_an_empty_report
              Examples.ticking_clock Examples.fs MUSIC_EXTENSIONS "/locked"
              eq_refl)
    as (lines & st' & R & O & N & _ & _).
  exists lines, st'. split; [exact R|]. split; [exact O|].
  rewrite N. vm_compute. reflexivity.
Defined.
